(** * AI Virtual Try-On: a shallow embedding of the client-side session engine

  The development follows the repository file by file:

  - [Types]    : [types.ts], the [ImageFile] record;
  - [Uploader] : [components/ImageUploader.tsx], the geometry and the aspect
                 classification of [resizeAndProcessImage];
  - [Viewer]   : [components/ResultDisplay.tsx], the zoom and pan handlers;
  - [Js], [Json] : the JavaScript built-ins the code calls ([parseInt],
                 [Array.prototype.sort], [JSON.stringify], [JSON.parse], ...);
  - [Storage]  : [hooks/useLocalStorageState.ts];
  - [Service]  : [services/geminiService.ts];
  - [App]      : [App.tsx], the session controller;
  - [Samples]  : concrete images, sessions and remote answers.

  Numbers.  Pixel dimensions are non-negative integers and are modelled in
  [Z].  The width/height ratio and the two thresholds of the aspect
  classification are binary64 values, exactly as in JavaScript (Rocq's
  primitive floats).  The viewer's zoom level and pan offsets are modelled
  as exact rationals: the handlers only add constants and clamp, IEEE
  rounding is monotone and the clamp bounds 1 and 5 are representable, so
  the bounds proved on rationals are the bounds of the binary64 run.

  Strings are sequences of 8-bit code units. *)

From Stdlib Require Import ZArith QArith Qminmax Floats Uint63 Lia.
From Stdlib Require Import Ascii DecimalString DecimalZ DecimalPos.
From Stdlib Require Import List Sorting.Sorted Sorting.Permutation.
From stdpp Require Import gmap strings list.

Set Warnings "-inexact-float,-register-all".
Local Open Scope Z_scope.

(* ===================================================================== *)
(** ** types.ts *)
(* ===================================================================== *)

Module Types.

Inductive AspectRatio := portrait | landscape | square.

(** [isFavorite?: boolean] is an optional field: [None] is JavaScript's
    [undefined]. *)
Record ImageFile := mkImageFile {
  id : string;
  data : string;
  mimeType : string;
  aspectRatio : AspectRatio;
  isFavorite : option bool
}.

(** Truthiness of the optional flag, as in [a.isFavorite && ...]. *)
Definition truthy (f : option bool) : bool :=
  match f with Some true => true | _ => false end.

#[global] Instance AspectRatio_eq_dec : EqDecision AspectRatio.
Proof. solve_decision. Defined.

#[global] Instance ImageFile_eq_dec : EqDecision ImageFile.
Proof. solve_decision. Defined.

End Types.
Import Types.

(* ===================================================================== *)
(** ** components/ImageUploader.tsx *)
(* ===================================================================== *)

Module Uploader.

Definition MAX_DIMENSION : Z := 1024.

(** [Math.round(a / b)] for integers [0 <= a], [0 < b]: JavaScript rounds
    halves towards +infinity, i.e. [floor (a/b + 1/2)].  For pixel
    dimensions the binary64 quotient lies on the same side of every
    half-integer as the exact one, so the integer formula is exact. *)
Definition Math_round_div (a b : Z) : Z := (2 * a + b) / (2 * b).

(** Lines 22-33: the [let { width, height } = img] block. *)
Definition constrain (width height : Z) : Z * Z :=
  if (width >? MAX_DIMENSION) || (height >? MAX_DIMENSION) then
    if width >? height then
      (MAX_DIMENSION, Math_round_div (height * MAX_DIMENSION) width)
    else
      (Math_round_div (width * MAX_DIMENSION) height, MAX_DIMENSION)
  else (width, height).

(** A canvas dimension as a JavaScript number. *)
Definition toNumber (n : Z) : float := PrimFloat.of_uint63 (Uint63.of_Z n).

(** Lines 47-50: [ratio > 1.1], [ratio < 0.9] on binary64 values. *)
Definition classify (ratio : float) : AspectRatio :=
  if PrimFloat.ltb 1.1%float ratio then landscape
  else if PrimFloat.ltb ratio 0.9%float then portrait
  else square.

Definition aspectOf (width height : Z) : AspectRatio :=
  classify (PrimFloat.div (toNumber width) (toNumber height)).

(** What the browser hands to the [img.onload] callback and what the
    callback asks of it: the decoded raster's intrinsic size, whether a 2-d
    context is available, the JPEG payload of the canvas (the part of the
    data URL after the comma) and a fresh UUID. *)
Record Raster := mkRaster {
  width : Z;
  height : Z;
  has2dContext : bool;
  toJpegBase64 : Z -> Z -> string;
  randomUUID : string
}.

Inductive Failure := DecodeError | NoCanvasContext.

(** [resizeAndProcessImage]: [inr] is a rejected promise.  [None] as input
    is a file the reader or the image decoder refuses. *)
Definition resizeAndProcessImage (file : option Raster) : ImageFile + Failure :=
  match file with
  | None => inr DecodeError
  | Some img =>
      let '(w, h) := constrain (width img) (height img) in
      if has2dContext img then
        inl {| id := randomUUID img;
               data := toJpegBase64 img w h;
               mimeType := "image/jpeg";
               aspectRatio := aspectOf w h;
               isFavorite := None |}
      else inr NoCanvasContext
  end.

End Uploader.

(* ===================================================================== *)
(** ** components/ResultDisplay.tsx *)
(* ===================================================================== *)

Module Viewer.
Local Open Scope Q_scope.

Definition MAX_ZOOM : Q := 5.
Definition MIN_ZOOM : Q := 1.
Definition ZOOM_STEP : Q := 0.2.

Definition Math_min (a b : Q) : Q := Qmin a b.
Definition Math_max (a b : Q) : Q := Qmax a b.

Record Point := mkPoint { x : Q; y : Q }.

Definition origin : Point := {| x := 0; y := 0 |}.

(** The [useState] cells of the modal viewer. *)
Record State := mkState {
  isModalOpen : bool;
  zoom : Q;
  position : Point;
  isDragging : bool;
  dragStart : Point
}.

Definition initial : State :=
  {| isModalOpen := false; zoom := 1; position := origin;
     isDragging := false; dragStart := origin |}.

Definition setIsModalOpen (b : bool) (s : State) : State :=
  {| isModalOpen := b; zoom := zoom s; position := position s;
     isDragging := isDragging s; dragStart := dragStart s |}.

Definition setZoom (z : Q) (s : State) : State :=
  {| isModalOpen := isModalOpen s; zoom := z; position := position s;
     isDragging := isDragging s; dragStart := dragStart s |}.

Definition setPosition (p : Point) (s : State) : State :=
  {| isModalOpen := isModalOpen s; zoom := zoom s; position := p;
     isDragging := isDragging s; dragStart := dragStart s |}.

Definition setIsDragging (b : bool) (s : State) : State :=
  {| isModalOpen := isModalOpen s; zoom := zoom s; position := position s;
     isDragging := b; dragStart := dragStart s |}.

Definition setDragStart (p : Point) (s : State) : State :=
  {| isModalOpen := isModalOpen s; zoom := zoom s; position := position s;
     isDragging := isDragging s; dragStart := p |}.

Definition openModal (generatedImage : option ImageFile) (s : State) : State :=
  match generatedImage with
  | None => s
  | Some _ => setIsModalOpen true s
  end.

(** [closeModal] closes at once; the reset runs from a 200 ms timer. *)
Definition closeModal (s : State) : State := setIsModalOpen false s.

Definition closeModal_timeout (s : State) : State :=
  setIsDragging false (setPosition origin (setZoom 1 s)).

Definition handleZoomIn (s : State) : State :=
  setZoom (Math_min (zoom s + ZOOM_STEP) MAX_ZOOM) s.

Definition handleZoomOut (s : State) : State :=
  setZoom (Math_max (zoom s - ZOOM_STEP) MIN_ZOOM) s.

Definition handleResetZoom (s : State) : State :=
  setPosition origin (setZoom MIN_ZOOM s).

Definition handleWheel (deltaY : Q) (s : State) : State :=
  let newZoom := if negb (Qle_bool deltaY 0) then zoom s - 0.1 else zoom s + 0.1 in
  setZoom (Math_max MIN_ZOOM (Math_min newZoom MAX_ZOOM)) s.

Definition handleMouseDown (clientX clientY : Q) (s : State) : State :=
  if Qle_bool (zoom s) 1 then s
  else setDragStart {| x := clientX - x (position s); y := clientY - y (position s) |}
         (setIsDragging true s).

Definition handleMouseMove (clientX clientY : Q) (s : State) : State :=
  if negb (isDragging s) then s
  else setPosition {| x := clientX - x (dragStart s); y := clientY - y (dragStart s) |} s.

Definition handleMouseUpOrLeave (s : State) : State := setIsDragging false s.

(** The events the component reacts to, and a run of the component. *)
Inductive Event :=
| OpenModal (generatedImage : option ImageFile)
| CloseModal
| CloseTimeout
| ZoomIn
| ZoomOut
| ResetZoom
| Wheel (deltaY : Q)
| MouseDown (clientX clientY : Q)
| MouseMove (clientX clientY : Q)
| MouseUpOrLeave.

Definition step (s : State) (e : Event) : State :=
  match e with
  | OpenModal g => openModal g s
  | CloseModal => closeModal s
  | CloseTimeout => closeModal_timeout s
  | ZoomIn => handleZoomIn s
  | ZoomOut => handleZoomOut s
  | ResetZoom => handleResetZoom s
  | Wheel d => handleWheel d s
  | MouseDown cx cy => handleMouseDown cx cy s
  | MouseMove cx cy => handleMouseMove cx cy s
  | MouseUpOrLeave => handleMouseUpOrLeave s
  end.

Definition run (s : State) (es : list Event) : State := fold_left step es s.

(** The data-model invariant of the viewer. *)
Definition zoom_in_range (s : State) : Prop := 1 <= zoom s <= 5.

End Viewer.

(* ===================================================================== *)
(** ** JavaScript built-ins used by the service and the controller *)
(* ===================================================================== *)

Module Js.
Local Open Scope string_scope.

(** [n.toString()] for an integral number. *)
Definition Number_toString (n : Z) : string :=
  DecimalString.NilZero.string_of_int (Z.to_int n).

(** White space as [trim] and [parseInt] see it (8-bit code units). *)
Definition isWhiteSpace (c : ascii) : bool :=
  let n := nat_of_ascii c in
  ((9 <=? n) && (n <=? 13) || (n =? 32) || (n =? 160))%nat.

Fixpoint trimStart (s : string) : string :=
  match s with
  | String c r => if isWhiteSpace c then trimStart r else s
  | EmptyString => s
  end.

Fixpoint trimEnd (s : string) : string :=
  match s with
  | String c r =>
      match trimEnd r with
      | EmptyString => if isWhiteSpace c then EmptyString else String c EmptyString
      | r' => String c r'
      end
  | EmptyString => EmptyString
  end.

Definition trim (s : string) : string := trimEnd (trimStart s).

(** The value of a digit in radixes up to 36. *)
Definition digitValue (c : ascii) : option Z :=
  let n := Z.of_nat (nat_of_ascii c) in
  if ((48 <=? n) && (n <=? 57))%Z then Some (n - 48)%Z
  else if ((97 <=? n) && (n <=? 122))%Z then Some (n - 87)%Z
  else if ((65 <=? n) && (n <=? 90))%Z then Some (n - 55)%Z
  else None.

(** The longest prefix of digits of the radix, read as a number; [acc] is
    [None] until a digit has been seen. *)
Fixpoint readDigits (radix : Z) (acc : option Z) (s : string) : option Z :=
  match s with
  | String c r =>
      match digitValue c with
      | Some d =>
          if (d <? radix)%Z
          then readDigits radix
                 (Some (match acc with Some a => a | None => 0 end * radix + d)%Z) r
          else acc
      | None => acc
      end
  | EmptyString => acc
  end.

Definition parseSign (s : string) : Z * string :=
  match s with
  | String "-" r => ((-1)%Z, r)
  | String "+" r => (1%Z, r)
  | _ => (1%Z, s)
  end.

Definition parseRadix (s : string) : Z * string :=
  match s with
  | String "0" (String "x" r) => (16%Z, r)
  | String "0" (String "X" r) => (16%Z, r)
  | _ => (10%Z, s)
  end.

(** [parseInt(s)] without a radix argument: leading white space, an optional
    sign, an optional [0x] prefix, then the longest run of digits.  [None]
    is [NaN].  Values are exact here; ids are millisecond timestamps, far
    below 2^53. *)
Definition parseInt (s : string) : option Z :=
  let '(sign, s) := parseSign (trimStart s) in
  let '(radix, s) := parseRadix s in
  match readDigits radix None s with
  | Some n => Some (sign * n)%Z
  | None => None
  end.

Definition isDigitChar (c : ascii) : bool :=
  let n := nat_of_ascii c in ((48 <=? n) && (n <=? 57))%nat.

Fixpoint allDigitChars (s : string) : bool :=
  match s with
  | String c r => isDigitChar c && allDigitChars r
  | EmptyString => true
  end.

(** [a - b] on numbers that may be [NaN]. *)
Definition minus (a b : option Z) : option Z :=
  match a, b with
  | Some x, Some y => Some (x - y)%Z
  | _, _ => None
  end.

(** [Array.prototype.sort(comparefn)]: the comparator's result is used by
    sign and [NaN] counts as [+0].  The sort is stable (ECMAScript 2019), so
    for a consistent comparator its result is the one of any stable sort;
    insertion from the right is the one written here. *)
Section Sort.
Context {A : Type} (comparefn : A -> A -> option Z).

Definition sortCompare (a b : A) : Z := default 0%Z (comparefn a b).

Fixpoint insertSorted (a : A) (l : list A) : list A :=
  match l with
  | [] => [a]
  | b :: l' => if (0 <? sortCompare a b)%Z then b :: insertSorted a l' else a :: l
  end.

Fixpoint Array_sort (l : list A) : list A :=
  match l with
  | [] => []
  | a :: l' => insertSorted a (Array_sort l')
  end.

End Sort.

(** [a.slice(0, n)]. *)
Definition slice0 {A : Type} (n : nat) (l : list A) : list A := take n l.

End Js.

(* ===================================================================== *)
(** ** JSON.stringify and JSON.parse *)
(* ===================================================================== *)

Module Json.
Local Open Scope string_scope.

(** The values that [JSON.stringify] writes and [JSON.parse] reads back.
    Numbers are integers; an object is the list of its own properties in
    enumeration order. *)
Inductive JsValue :=
| JNull
| JBool (b : bool)
| JNum (n : Z)
| JStr (s : string)
| JArr (items : list JsValue)
| JObj (fields : list (string * JsValue)).

Definition dquote : ascii := ascii_of_nat 34.
Definition backslash : ascii := ascii_of_nat 92.

Definition hexDigit (n : nat) : ascii :=
  ascii_of_nat (if (n <? 10)%nat then 48 + n else 87 + n).

(** [QuoteJSONString], one code unit at a time. *)
Definition escapeChar (c : ascii) : string :=
  let n := nat_of_ascii c in
  if Ascii.eqb c dquote then String backslash (String dquote EmptyString)
  else if Ascii.eqb c backslash then String backslash (String backslash EmptyString)
  else if (n =? 8)%nat then String backslash "b"
  else if (n =? 9)%nat then String backslash "t"
  else if (n =? 10)%nat then String backslash "n"
  else if (n =? 12)%nat then String backslash "f"
  else if (n =? 13)%nat then String backslash "r"
  else if (n <? 32)%nat
       then String backslash
              (String "u" (String "0" (String "0"
                 (String (hexDigit (n / 16)) (String (hexDigit (n mod 16)) EmptyString)))))
  else String c EmptyString.

Fixpoint escape (s : string) : string :=
  match s with
  | EmptyString => EmptyString
  | String c r => escapeChar c ++ escape r
  end.

Definition quote (s : string) : string :=
  String dquote (escape s ++ String dquote EmptyString).

Fixpoint JSON_stringify (v : JsValue) : string :=
  match v with
  | JNull => "null"
  | JBool true => "true"
  | JBool false => "false"
  | JNum n => Js.Number_toString n
  | JStr s => quote s
  | JArr items =>
      "[" ++ (fix elements (l : list JsValue) : string :=
                match l with
                | [] => "]"
                | [x] => JSON_stringify x ++ "]"
                | x :: l' => JSON_stringify x ++ "," ++ elements l'
                end) items
  | JObj fields =>
      "{" ++ (fix members (l : list (string * JsValue)) : string :=
                match l with
                | [] => "}"
                | [(k, x)] => quote k ++ ":" ++ JSON_stringify x ++ "}"
                | (k, x) :: l' => quote k ++ ":" ++ JSON_stringify x ++ "," ++ members l'
                end) fields
  end.

Definition hexValue (c : ascii) : option nat :=
  let n := nat_of_ascii c in
  if ((48 <=? n) && (n <=? 57))%nat then Some (n - 48)%nat
  else if ((97 <=? n) && (n <=? 102))%nat then Some (n - 87)%nat
  else if ((65 <=? n) && (n <=? 70))%nat then Some (n - 55)%nat
  else None.

(** The character an escape letter stands for. *)
Definition unescapeChar (e : ascii) : option ascii :=
  if Ascii.eqb e dquote then Some dquote
  else if Ascii.eqb e backslash then Some backslash
  else if Ascii.eqb e "/" then Some "/"%char
  else if Ascii.eqb e "b" then Some (ascii_of_nat 8)
  else if Ascii.eqb e "t" then Some (ascii_of_nat 9)
  else if Ascii.eqb e "n" then Some (ascii_of_nat 10)
  else if Ascii.eqb e "f" then Some (ascii_of_nat 12)
  else if Ascii.eqb e "r" then Some (ascii_of_nat 13)
  else None.

Definition consChar (c : ascii) (r : option (string * string)) : option (string * string) :=
  match r with
  | Some (s, rest) => Some (String c s, rest)
  | None => None
  end.

(** The characters of a string literal after its opening quote, up to and
    including the closing quote; the result is the string and what follows
    the literal. *)
Fixpoint parseChars (s : string) : option (string * string) :=
  match s with
  | EmptyString => None
  | String c r =>
      if Ascii.eqb c dquote then Some (EmptyString, r)
      else if Ascii.eqb c backslash then
        match r with
        | String e r1 =>
            if Ascii.eqb e "u" then
              match r1 with
              | String h1 (String h2 (String h3 (String h4 r2))) =>
                  match hexValue h1, hexValue h2, hexValue h3, hexValue h4 with
                  | Some 0%nat, Some 0%nat, Some a, Some b =>
                      consChar (ascii_of_nat (16 * a + b)) (parseChars r2)
                  | _, _, _, _ => None
                  end
              | _ => None
              end
            else
              match unescapeChar e with
              | Some c' => consChar c' (parseChars r1)
              | None => None
              end
        | EmptyString => None
        end
      else if (nat_of_ascii c <? 32)%nat then None
      else consChar c (parseChars r)
  end.

Definition isNumberChar (c : ascii) : bool :=
  let n := nat_of_ascii c in
  (((48 <=? n) && (n <=? 57)) || (n =? 45))%nat.

(** The longest prefix made of digits and minus signs. *)
Fixpoint spanNumber (s : string) : string * string :=
  match s with
  | String c r =>
      if isNumberChar c
      then let '(tok, rest) := spanNumber r in (String c tok, rest)
      else (EmptyString, s)
  | EmptyString => (EmptyString, EmptyString)
  end.

(** An integer literal in the form [JSON.stringify] writes it. *)
Definition parseNumber (s : string) : option (Z * string) :=
  let '(tok, rest) := spanNumber s in
  match DecimalString.NilZero.int_of_string tok with
  | Some d =>
      if String.eqb (Js.Number_toString (Z.of_int d)) tok
      then Some (Z.of_int d, rest) else None
  | None => None
  end.

Fixpoint stripPrefix (p s : string) : option string :=
  match p, s with
  | EmptyString, _ => Some s
  | String a p', String b s' => if Ascii.eqb a b then stripPrefix p' s' else None
  | String _ _, EmptyString => None
  end.

(** A recursive-descent reader of the compact JSON text; [fuel] bounds the
    nesting and the number of elements. *)
Fixpoint parseValue (fuel : nat) (s : string) : option (JsValue * string) :=
  match fuel with
  | O => None
  | S fuel =>
      match s with
      | EmptyString => None
      | String c r =>
          if Ascii.eqb c "n" then
            match stripPrefix "ull" r with Some r' => Some (JNull, r') | None => None end
          else if Ascii.eqb c "t" then
            match stripPrefix "rue" r with Some r' => Some (JBool true, r') | None => None end
          else if Ascii.eqb c "f" then
            match stripPrefix "alse" r with Some r' => Some (JBool false, r') | None => None end
          else if Ascii.eqb c dquote then
            match parseChars r with Some (str, r') => Some (JStr str, r') | None => None end
          else if Ascii.eqb c "[" then
            match r with
            | String d r' =>
                if Ascii.eqb d "]" then Some (JArr [], r')
                else match parseElements fuel r with
                     | Some (items, r') => Some (JArr items, r')
                     | None => None
                     end
            | EmptyString => None
            end
          else if Ascii.eqb c "{" then
            match r with
            | String d r' =>
                if Ascii.eqb d "}" then Some (JObj [], r')
                else match parseMembers fuel r with
                     | Some (fields, r') => Some (JObj fields, r')
                     | None => None
                     end
            | EmptyString => None
            end
          else if isNumberChar c then
            match parseNumber s with Some (n, r') => Some (JNum n, r') | None => None end
          else None
      end
  end
with parseElements (fuel : nat) (s : string) : option (list JsValue * string) :=
  match fuel with
  | O => None
  | S fuel =>
      match parseValue fuel s with
      | Some (v, String c r) =>
          if Ascii.eqb c "]" then Some ([v], r)
          else if Ascii.eqb c "," then
            match parseElements fuel r with
            | Some (vs, r') => Some (v :: vs, r')
            | None => None
            end
          else None
      | _ => None
      end
  end
with parseMembers (fuel : nat) (s : string) : option (list (string * JsValue) * string) :=
  match fuel with
  | O => None
  | S fuel =>
      match s with
      | String q r =>
          if Ascii.eqb q dquote then
            match parseChars r with
            | Some (k, String colon r1) =>
                if Ascii.eqb colon ":" then
                  match parseValue fuel r1 with
                  | Some (v, String c r2) =>
                      if Ascii.eqb c "}" then Some ([(k, v)], r2)
                      else if Ascii.eqb c "," then
                        match parseMembers fuel r2 with
                        | Some (kvs, r') => Some ((k, v) :: kvs, r')
                        | None => None
                        end
                      else None
                  | _ => None
                  end
                else None
            | _ => None
            end
          else None
      | EmptyString => None
      end
  end.

(** The elements of an array and the members of an object, as
    [JSON_stringify] writes them after the opening bracket. *)
Definition elementsText : list JsValue -> string :=
  fix elements (l : list JsValue) : string :=
    match l with
    | [] => "]"
    | [x] => JSON_stringify x ++ "]"
    | x :: l' => JSON_stringify x ++ "," ++ elements l'
    end.

Definition membersText : list (string * JsValue) -> string :=
  fix members (l : list (string * JsValue)) : string :=
    match l with
    | [] => "}"
    | [(k, x)] => quote k ++ ":" ++ JSON_stringify x ++ "}"
    | (k, x) :: l' => quote k ++ ":" ++ JSON_stringify x ++ "," ++ members l'
    end.

(** The fuel a value needs. *)
Fixpoint fuelOf (v : JsValue) : nat :=
  match v with
  | JArr items =>
      S ((fix go (l : list JsValue) : nat :=
            match l with [] => O | x :: l' => S (fuelOf x + go l') end) items)
  | JObj fields =>
      S ((fix go (l : list (string * JsValue)) : nat :=
            match l with [] => O | (_, x) :: l' => S (fuelOf x + go l') end) fields)
  | _ => 1%nat
  end.

Definition fuelOfElements : list JsValue -> nat :=
  fix go (l : list JsValue) : nat :=
    match l with [] => O | x :: l' => S (fuelOf x + go l') end.

Definition fuelOfMembers : list (string * JsValue) -> nat :=
  fix go (l : list (string * JsValue)) : nat :=
    match l with [] => O | (_, x) :: l' => S (fuelOf x + go l') end.

Fixpoint allNumberChars (s : string) : bool :=
  match s with
  | String c r => isNumberChar c && allNumberChars r
  | EmptyString => true
  end.

(** Text after which a number literal ends. *)
Definition endsNumber (rest : string) : Prop :=
  match rest with
  | String c _ => isNumberChar c = false
  | EmptyString => True
  end.

(** [JSON.parse]: [None] is a thrown [SyntaxError]. *)
Definition JSON_parse (s : string) : option JsValue :=
  match parseValue (S (String.length s)) s with
  | Some (v, EmptyString) => Some v
  | _ => None
  end.

End Json.

(* ===================================================================== *)
(** ** hooks/useLocalStorageState.ts *)
(* ===================================================================== *)

Module Storage.
Import Json.
Local Open Scope string_scope.

(** [window.localStorage]: a map from strings to strings. *)
Definition getItem (key : string) (st : gmap string string) : option string :=
  st !! key.

Definition removeItem (key : string) (st : gmap string string) : gmap string string :=
  delete key st.

(** Lines 5-17, the [useState] initializer: the value the hook starts from. *)
Definition useLocalStorageState_init (key : string) (defaultValue : JsValue)
    (st : gmap string string) : JsValue :=
  match getItem key st with
  | Some storedValue =>
      if String.eqb storedValue "" then defaultValue
      else match JSON_parse storedValue with
           | Some v => v
           | None => defaultValue
           end
  | None => defaultValue
  end.

(** [state === null || (Array.isArray(state) && state.length === 0)]. *)
Definition isEmptyState (state : JsValue) : bool :=
  match state with
  | JNull => true
  | JArr [] => true
  | _ => false
  end.

Section Quota.
(** Whether the storage area takes a content; a refused write throws
    [QuotaExceededError]. *)
Variable accepts : gmap string string -> bool.

Definition setItem (key value : string) (st : gmap string string)
  : option (gmap string string) :=
  let st' := <[key := value]> st in
  if accepts st' then Some st' else None.

(** Lines 20-31, the effect that runs after each change of [state]; a
    thrown error is caught and logged, the storage stays as it was. *)
Definition useLocalStorageState_effect (key : string) (state : JsValue)
    (st : gmap string string) : gmap string string :=
  if isEmptyState state then removeItem key st
  else match setItem key (JSON_stringify state) st with
       | Some st' => st'
       | None => st
       end.

End Quota.

End Storage.

(* ===================================================================== *)
(** ** services/geminiService.ts *)
(* ===================================================================== *)

Module Service.
Local Open Scope string_scope.

Record InlineData := mkInlineData { inline_data : string; inline_mimeType : string }.

Record Part := mkPart { inlineData : option InlineData; text : option string }.

Record Content := mkContent { parts : option (list Part) }.

Record Candidate := mkCandidate { content : option Content }.

Record GenerateContentResponse := mkResponse { candidates : option (list Candidate) }.

Record Request := mkRequest { model : string; contents : list Part }.

(** A thrown value: an [Error] with its message, or anything else. *)
Inductive Thrown := ErrorObj (message : string) | NonError.

(** [Omit<ImageFile, 'id' | 'isFavorite'>]. *)
Record ResultData := mkResultData {
  result_data : string;
  result_mimeType : string;
  result_aspectRatio : AspectRatio
}.

Definition aspectRatioName (a : AspectRatio) : string :=
  match a with
  | portrait => "portrait"
  | landscape => "landscape"
  | square => "square"
  end.

Definition nl : string := String (ascii_of_nat 10) EmptyString.

Definition basePrompt (modelImage garmentImage : ImageFile) : string :=
  nl ++ "      Take the person from the first image (a "
     ++ aspectRatioName (aspectRatio modelImage)
     ++ " photo) and the clothing item from the second image (a "
     ++ aspectRatioName (aspectRatio garmentImage) ++ " photo). " ++ nl
     ++ "      Create a new, photorealistic image where the person is wearing the clothing. " ++ nl
     ++ "      The fit should be natural and flattering. Maintain the person's pose and the original background as much as possible." ++ nl
     ++ "      Ensure lighting and shadows on the clothing match the person's image." ++ nl
     ++ "    ".

Definition buildPrompt (modelImage garmentImage : ImageFile) (customPrompt : string) : string :=
  if negb (String.eqb customPrompt "") && negb (String.eqb (Js.trim customPrompt) "")
  then basePrompt modelImage garmentImage ++ nl ++ nl
       ++ "Additional user instructions: " ++ Js.trim customPrompt
  else basePrompt modelImage garmentImage.

Definition buildRequest (modelImage garmentImage : ImageFile) (customPrompt : string) : Request :=
  {| model := "gemini-2.5-flash-image-preview";
     contents :=
       [ {| inlineData := Some {| inline_data := data modelImage;
                                  inline_mimeType := mimeType modelImage |};
            text := None |};
         {| inlineData := Some {| inline_data := data garmentImage;
                                  inline_mimeType := mimeType garmentImage |};
            text := None |};
         {| inlineData := None;
            text := Some (buildPrompt modelImage garmentImage customPrompt) |} ] |}.

(** [response.candidates?.[0]?.content?.parts || []]. *)
Definition responseParts (response : GenerateContentResponse) : list Part :=
  match candidates response with
  | Some (c :: _) =>
      match content c with
      | Some ct => default [] (parts ct)
      | None => []
      end
  | _ => []
  end.

(** The [for] loop: the first part that carries inline data. *)
Fixpoint firstImage (ps : list Part) : option ResultData :=
  match ps with
  | [] => None
  | p :: ps' =>
      match inlineData p with
      | Some d => Some {| result_data := inline_data d;
                          result_mimeType := inline_mimeType d;
                          result_aspectRatio := portrait |}
      | None => firstImage ps'
      end
  end.

Section Collaborator.
(** The remote call [ai.models.generateContent]: it answers or throws. *)
Variable generateContent : Request -> GenerateContentResponse + Thrown.

(** The body of the [try] block. *)
Definition attempt (modelImage garmentImage : ImageFile) (customPrompt : string)
  : ResultData + Thrown :=
  match generateContent (buildRequest modelImage garmentImage customPrompt) with
  | inl response =>
      match firstImage (responseParts response) with
      | Some r => inl r
      | None => inr (ErrorObj "API did not return an image. It may have been blocked due to safety settings or an internal error.")
      end
  | inr e => inr e
  end.

(** [generateVirtualTryOnImage]: [inr] is the rejected promise. *)
Definition generateVirtualTryOnImage (modelImage garmentImage : ImageFile)
    (customPrompt : string) : ResultData + Thrown :=
  match attempt modelImage garmentImage customPrompt with
  | inl r => inl r
  | inr (ErrorObj m) => inr (ErrorObj ("Failed to generate image: " ++ m))
  | inr NonError => inr (ErrorObj "An unknown error occurred during image generation.")
  end.

End Collaborator.

End Service.

(* ===================================================================== *)
(** ** App.tsx *)
(* ===================================================================== *)

Module App.
Import Service.
Local Open Scope string_scope.

(** The state cells of the component: four persisted ones and four
    ephemeral ones. *)
Record AppState := mkAppState {
  modelImage : option ImageFile;
  garmentImage : option ImageFile;
  history : list ImageFile;
  customPrompt : string;
  generatedImage : option ImageFile;
  isLoading : bool;
  error : option string;
  isAdvancedOpen : bool
}.

(** First mount over an empty storage: every cell holds its default. *)
Definition initial : AppState :=
  {| modelImage := None; garmentImage := None; history := []; customPrompt := "";
     generatedImage := None; isLoading := false; error := None;
     isAdvancedOpen := false |}.

Definition setModelImage (v : option ImageFile) (s : AppState) : AppState :=
  {| modelImage := v; garmentImage := garmentImage s; history := history s;
     customPrompt := customPrompt s; generatedImage := generatedImage s;
     isLoading := isLoading s; error := error s; isAdvancedOpen := isAdvancedOpen s |}.

Definition setGarmentImage (v : option ImageFile) (s : AppState) : AppState :=
  {| modelImage := modelImage s; garmentImage := v; history := history s;
     customPrompt := customPrompt s; generatedImage := generatedImage s;
     isLoading := isLoading s; error := error s; isAdvancedOpen := isAdvancedOpen s |}.

Definition setHistory (v : list ImageFile) (s : AppState) : AppState :=
  {| modelImage := modelImage s; garmentImage := garmentImage s; history := v;
     customPrompt := customPrompt s; generatedImage := generatedImage s;
     isLoading := isLoading s; error := error s; isAdvancedOpen := isAdvancedOpen s |}.

Definition setCustomPrompt (v : string) (s : AppState) : AppState :=
  {| modelImage := modelImage s; garmentImage := garmentImage s; history := history s;
     customPrompt := v; generatedImage := generatedImage s;
     isLoading := isLoading s; error := error s; isAdvancedOpen := isAdvancedOpen s |}.

Definition setGeneratedImage (v : option ImageFile) (s : AppState) : AppState :=
  {| modelImage := modelImage s; garmentImage := garmentImage s; history := history s;
     customPrompt := customPrompt s; generatedImage := v;
     isLoading := isLoading s; error := error s; isAdvancedOpen := isAdvancedOpen s |}.

Definition setIsLoading (v : bool) (s : AppState) : AppState :=
  {| modelImage := modelImage s; garmentImage := garmentImage s; history := history s;
     customPrompt := customPrompt s; generatedImage := generatedImage s;
     isLoading := v; error := error s; isAdvancedOpen := isAdvancedOpen s |}.

Definition setError (v : option string) (s : AppState) : AppState :=
  {| modelImage := modelImage s; garmentImage := garmentImage s; history := history s;
     customPrompt := customPrompt s; generatedImage := generatedImage s;
     isLoading := isLoading s; error := v; isAdvancedOpen := isAdvancedOpen s |}.

Definition setIsAdvancedOpen (v : bool) (s : AppState) : AppState :=
  {| modelImage := modelImage s; garmentImage := garmentImage s; history := history s;
     customPrompt := customPrompt s; generatedImage := generatedImage s;
     isLoading := isLoading s; error := error s; isAdvancedOpen := v |}.

(** Lines 34-38: [{ ...resultData, id: Date.now().toString(), isFavorite: false }]. *)
Definition newImageOf (resultData : ResultData) (now : Z) : ImageFile :=
  {| id := Js.Number_toString now;
     data := result_data resultData;
     mimeType := result_mimeType resultData;
     aspectRatio := result_aspectRatio resultData;
     isFavorite := Some false |}.

(** Line 40: the updater [prev => [newImage, ...prev].slice(0, 5)]. *)
Definition pushHistory (newImage : ImageFile) (prev : list ImageFile) : list ImageFile :=
  Js.slice0 5 (newImage :: prev).

(** Line 42: [err.message || 'An unknown error occurred.']. *)
Definition messageOf (err : Thrown) : string :=
  match err with
  | ErrorObj m => if String.eqb m "" then "An unknown error occurred." else m
  | NonError => "An unknown error occurred."
  end.

(** Lines 28-30: what [handleGenerate] does before it awaits. *)
Definition handleGenerate_begin (s : AppState) : AppState :=
  setGeneratedImage None (setError None (setIsLoading true s)).

(** Lines 33-45: what it does once the promise has settled; [now] is the
    reading of [Date.now()]. *)
Definition handleGenerate_settle (outcome : ResultData + Thrown) (now : Z)
    (s : AppState) : AppState :=
  setIsLoading false
    match outcome with
    | inl resultData =>
        let newImage := newImageOf resultData now in
        setHistory (pushHistory newImage (history s))
          (setGeneratedImage (Some newImage) s)
    | inr err => setError (Some (messageOf err)) s
    end.

Section Controller.
Variable generateContent : Request -> GenerateContentResponse + Thrown.

(** [handleGenerate] in the run where no other handler fires while the
    request is pending.  The request can stay pending while the user clicks
    a thumbnail, a star or a clear button; those runs are sequences of
    [step] with [GenerateBegin] and [GenerateSettle] apart. *)
Definition handleGenerate (now : Z) (s : AppState) : AppState :=
  match modelImage s, garmentImage s with
  | Some m, Some g =>
      handleGenerate_settle
        (generateVirtualTryOnImage generateContent m g (customPrompt s)) now
        (handleGenerate_begin s)
  | _, _ => setError (Some "Please upload both a person and a garment image.") s
  end.

End Controller.

Definition handleClearHistory (s : AppState) : AppState :=
  setGeneratedImage None (setHistory [] s).

Definition handleClear (s : AppState) : AppState :=
  setIsAdvancedOpen false (setCustomPrompt "" (setHistory [] (setIsLoading false
    (setError None (setGeneratedImage None (setGarmentImage None
      (setModelImage None s))))))).

(** [{ ...img, isFavorite: !img.isFavorite }]. *)
Definition flipFavorite (img : ImageFile) : ImageFile :=
  {| id := id img; data := data img; mimeType := mimeType img;
     aspectRatio := aspectRatio img;
     isFavorite := Some (negb (truthy (isFavorite img))) |}.

Definition toggleIn (i : string) (h : list ImageFile) : list ImageFile :=
  map (fun img => if String.eqb (id img) i then flipFavorite img else img) h.

Definition handleToggleFavorite (i : string) (s : AppState) : AppState :=
  let s1 := setHistory (toggleIn i (history s)) s in
  match generatedImage s with
  | Some g =>
      if String.eqb (id g) i
      then setGeneratedImage (option_map flipFavorite (generatedImage s1)) s1
      else s1
  | None => s1
  end.

(** Lines 77-83: the comparator of [sortedHistory]. *)
Definition compareHistory (a b : ImageFile) : option Z :=
  if truthy (isFavorite a) && negb (truthy (isFavorite b)) then Some (-1)%Z
  else if negb (truthy (isFavorite a)) && truthy (isFavorite b) then Some 1%Z
  else Js.minus (Js.parseInt (id b)) (Js.parseInt (id a)).

Definition sortedHistory (history : list ImageFile) : list ImageFile :=
  Js.Array_sort compareHistory history.

(** Lines 86-90. *)
Definition handleImageUpload (img : ImageFile) (now : Z) (prev : option ImageFile)
  : option ImageFile :=
  let previd := match prev with Some p => id p | None => "" end in
  Some {| id := if String.eqb previd "" then Js.Number_toString now else previd;
          data := data img; mimeType := mimeType img;
          aspectRatio := aspectRatio img; isFavorite := isFavorite img |}.

Definition handleModelImageUpload (img : ImageFile) (now : Z) (s : AppState) : AppState :=
  setModelImage (handleImageUpload img now (modelImage s)) s.

Definition handleGarmentImageUpload (img : ImageFile) (now : Z) (s : AppState) : AppState :=
  setGarmentImage (handleImageUpload img now (garmentImage s)) s.

Definition handleHistorySelect (image : ImageFile) (s : AppState) : AppState :=
  setGeneratedImage (Some image) s.

Definition handleClearModelImage (s : AppState) : AppState := setModelImage None s.

Definition handleClearGarmentImage (s : AppState) : AppState := setGarmentImage None s.

(** A page reload: the persisted cells come back from storage, the
    ephemeral ones restart from their [useState] defaults. *)
Definition reload (s : AppState) : AppState :=
  {| modelImage := modelImage s; garmentImage := garmentImage s; history := history s;
     customPrompt := customPrompt s; generatedImage := None; isLoading := false;
     error := None; isAdvancedOpen := false |}.

(** The events of a session.  A generation is two events, its start and
    its settlement, since other events may come in between. *)
Inductive Event :=
| GenerateBegin
| GenerateSettle (outcome : ResultData + Thrown) (now : Z)
| ClearHistory
| Clear
| ToggleFavorite (i : string)
| HistorySelect (image : ImageFile)
| ModelImageUpload (img : ImageFile) (now : Z)
| GarmentImageUpload (img : ImageFile) (now : Z)
| ClearModelImage
| ClearGarmentImage
| CustomPromptChange (v : string)
| AdvancedToggle
| Reload.

Definition step (s : AppState) (e : Event) : AppState :=
  match e with
  | GenerateBegin =>
      match modelImage s, garmentImage s with
      | Some _, Some _ => handleGenerate_begin s
      | _, _ => setError (Some "Please upload both a person and a garment image.") s
      end
  | GenerateSettle outcome now => handleGenerate_settle outcome now s
  | ClearHistory => handleClearHistory s
  | Clear => handleClear s
  | ToggleFavorite i => handleToggleFavorite i s
  | HistorySelect image => handleHistorySelect image s
  | ModelImageUpload img now => handleModelImageUpload img now s
  | GarmentImageUpload img now => handleGarmentImageUpload img now s
  | ClearModelImage => handleClearModelImage s
  | ClearGarmentImage => handleClearGarmentImage s
  | CustomPromptChange v => setCustomPrompt v s
  | AdvancedToggle => setIsAdvancedOpen (negb (isAdvancedOpen s)) s
  | Reload => reload s
  end.

(** When an event can happen in a session whose results are created at
    different milliseconds: a thumbnail can only be selected if it is shown,
    i.e. is an entry of the history; [Date.now()] is a count of
    milliseconds that binary64 holds exactly; and the clock has moved on
    since the entries of the history were created, so a new result's id is
    not among theirs.  The last condition is an assumption on the clock:
    the code does not compare ids (line 36).  [Session.possible] is the
    relation without it. *)
Definition enabled (s : AppState) (e : Event) : Prop :=
  match e with
  | HistorySelect image => image ∈ history s
  | GenerateSettle (inl _) now =>
      (0 <= now <= 2 ^ 53)%Z /\ Js.Number_toString now ∉ map id (history s)
  | _ => True
  end.

Inductive reachable : AppState -> Prop :=
| reachable_initial : reachable initial
| reachable_step s e : reachable s -> enabled s e -> reachable (step s e).



(** An id that reads as an integer which binary64 holds exactly, as the
    ids of generated images do ([Date.now().toString()]). *)
Definition numericId (img : ImageFile) : bool :=
  match Js.parseInt (id img) with
  | Some n => (Z.abs n <=? 2 ^ 53)%Z
  | None => false
  end.

(** The display order: [a] may stand before [b] when [a] is a favorite and
    [b] is not, or when both have the same status and [a]'s id is not the
    smaller number. *)
Definition displaysBefore (a b : ImageFile) : Prop :=
  (truthy (isFavorite a) = true /\ truthy (isFavorite b) = false) \/
  (truthy (isFavorite a) = truthy (isFavorite b) /\
   exists x y, Js.parseInt (id a) = Some x /\ Js.parseInt (id b) = Some y /\ (y <= x)%Z).

(** Entries that the comparator cannot tell apart: same status, same
    numeric id. *)
Definition sameRank (f : bool) (n : Z) (img : ImageFile) : Prop :=
  truthy (isFavorite img) = f /\ Js.parseInt (id img) = Some n.

#[global] Instance sameRank_dec f n img : Decision (sameRank f n img).
Proof. unfold sameRank. apply _. Defined.

(** [d] is [h] in display order: the same entries, ordered by
    [displaysBefore], entries of the same rank in the order they have in
    [h]. *)
Definition displayOrderOf (h d : list ImageFile) : Prop :=
  d ≡ₚ h /\
  StronglySorted displaysBefore d /\
  forall f n, filter (sameRank f n) d = filter (sameRank f n) h.

End App.

(* ===================================================================== *)
(** ** Sample sessions *)
(* ===================================================================== *)

Module Samples.
Import Service App.
Local Open Scope string_scope.

Definition person : ImageFile :=
  {| id := "0b1e7c52-model"; data := "/9j/4AAQ"; mimeType := "image/jpeg";
     aspectRatio := landscape; isFavorite := None |}.

Definition shirt : ImageFile :=
  {| id := "77aa01c3-garment"; data := "/9j/4BBR"; mimeType := "image/jpeg";
     aspectRatio := square; isFavorite := None |}.

Definition earlier : ImageFile :=
  {| id := "1700000000000"; data := "iVBORw0K"; mimeType := "image/png";
     aspectRatio := portrait; isFavorite := Some true |}.

(** The decoded 2000 x 1000 photo that [person] was made from. *)
Definition photo : Uploader.Raster :=
  {| Uploader.width := 2000; Uploader.height := 1000;
     Uploader.has2dContext := true;
     Uploader.toJpegBase64 := fun _ _ => "/9j/4AAQ";
     Uploader.randomUUID := "0b1e7c52-model" |}.

(** Both slots filled, one earlier result on display and in the history. *)
Definition session : AppState :=
  {| modelImage := Some person; garmentImage := Some shirt; history := [earlier];
     customPrompt := ""; generatedImage := Some earlier; isLoading := false;
     error := None; isAdvancedOpen := false |}.

(** A remote call that throws, and one that answers with a text part
    followed by an image part. *)
Definition refusing (_ : Request) : GenerateContentResponse + Thrown :=
  inr (ErrorObj "quota exceeded").

(** What the service resolves with when the remote call is [answering]. *)
Definition answer : ResultData :=
  {| result_data := "iVBORw0KGgo"; result_mimeType := "image/png";
     result_aspectRatio := portrait |}.

Definition answering (_ : Request) : GenerateContentResponse + Thrown :=
  inl {| candidates := Some
           [ {| content := Some {| parts := Some
                  [ {| inlineData := None; text := Some "Here you go" |};
                    {| inlineData := Some {| inline_data := "iVBORw0KGgo";
                                             inline_mimeType := "image/png" |};
                       text := None |} ] |} |} ] |}.

End Samples.

(* ===================================================================== *)
(** ** The rest of the components *)
(* ===================================================================== *)

Module JsString.
Local Open Scope string_scope.

(** [s.startsWith(p)]. *)
Definition startsWith (p s : string) : bool := String.prefix p s.

(** [s.split(sep)] for a separator of one character. *)
Fixpoint split (sep : ascii) (s : string) : list string :=
  match s with
  | EmptyString => [EmptyString]
  | String c r =>
      if Ascii.eqb c sep then EmptyString :: split sep r
      else match split sep r with
           | seg :: segs => String c seg :: segs
           | [] => [String c EmptyString]
           end
  end.

Fixpoint contains (c : ascii) (s : string) : bool :=
  match s with
  | EmptyString => false
  | String d r => Ascii.eqb d c || contains c r
  end.

(** A string that does not begin with white space. *)
Definition headNotWhite (s : string) : Prop :=
  match s with
  | String c _ => Js.isWhiteSpace c = false
  | EmptyString => True
  end.

End JsString.

(** components/ImageUploader.tsx, the component around
    [resizeAndProcessImage]. *)
Module UploaderView.
Import Uploader.

(** A [File] as the component sees it: its MIME type and what the reader
    and the image decoder make of its content. *)
Record File := mkFile {
  file_type : string;
  decoded : option Raster
}.

(** The aspect class in exact integer terms: [w / h > 11 / 10],
    [w / h < 9 / 10]. *)
Definition aspectExact (w h : Z) : AspectRatio :=
  if 11 * h <? 10 * w then landscape
  else if 10 * w <? 9 * h then portrait
  else square.

Definition aspect_eqb (a b : AspectRatio) : bool :=
  match a, b with
  | portrait, portrait | landscape, landscape | square, square => true
  | _, _ => false
  end.

(** Whether the binary64 classification and the exact one agree on every
    pair of the listed sizes. *)
Definition agreeOn (zs : list Z) : bool :=
  let fs := map (fun z => (z, toNumber z)) zs in
  forallb (fun wf => forallb (fun hf =>
     aspect_eqb (classify (PrimFloat.div (snd wf) (snd hf)))
                (aspectExact (fst wf) (fst hf))) fs) fs.

(** The sizes a side of the canvas can have. *)
Definition canvasSizes : list Z := map Z.of_nat (seq 0 1025).

Section Component.
(** The props: the slot's image and the parent's callback, which acts on
    the parent's state. *)
Context {S : Type} (image : option ImageFile) (onImageUpload : ImageFile -> S -> S).

(** Lines 65-72: a rejected ingestion is logged and nothing is passed on. *)
Definition processFile (file : File) (s : S) : S :=
  match resizeAndProcessImage (decoded file) with
  | inl processedImage => onImageUpload processedImage s
  | inr _ => s
  end.

(** Lines 74-79: [event.target.files?.[0]]. *)
Definition handleFileChange (files : list File) (s : S) : S :=
  match files with
  | file :: _ => processFile file s
  | [] => s
  end.

(** Lines 81-88. *)
Definition handleDrop (files : list File) (s : S) : S :=
  match files with
  | file :: _ =>
      if JsString.startsWith "image/"%string (file_type file)
      then processFile file s else s
  | [] => s
  end.

(** Lines 95-99: [{ ...image, aspectRatio: newRatio }]. *)
Definition handleAspectRatioChange (newRatio : AspectRatio) (s : S) : S :=
  match image with
  | Some im =>
      onImageUpload {| id := id im; data := data im; mimeType := mimeType im;
                       aspectRatio := newRatio; isFavorite := isFavorite im |} s
  | None => s
  end.

End Component.

End UploaderView.

(** components/History.tsx and the way [App] renders it. *)
Module HistoryView.
Import App.

(** Line 26 of the component: [activeImage?.id === image.id]. *)
Definition isActive (activeImage : option ImageFile) (image : ImageFile) : bool :=
  match activeImage with
  | Some a => String.eqb (id a) (id image)
  | None => false
  end.

(** The thumbnails drawn with the highlight ring. *)
Definition highlighted (s : AppState) : list ImageFile :=
  List.filter (isActive (generatedImage s)) (sortedHistory (history s)).

(** [handleFavoriteClick]: the click is not propagated to the thumbnail, so
    only [onToggleFavorite] runs. *)
Definition handleFavoriteClick (i : string) (s : AppState) : AppState :=
  handleToggleFavorite i s.

(** The favorites and the others, as the comparator's first two tests tell
    them apart. *)
Definition isFav (img : ImageFile) : bool := truthy (isFavorite img).

Definition notFav (img : ImageFile) : bool := negb (truthy (isFavorite img)).

End HistoryView.

(** The two uploaders of [App], lines 111-124, and the generate button. *)
Module AppView.
Import App UploaderView.

Definition modelFileChange (files : list File) (now : Z) (s : AppState) : AppState :=
  handleFileChange (fun img => handleModelImageUpload img now) files s.

Definition modelDrop (files : list File) (now : Z) (s : AppState) : AppState :=
  handleDrop (fun img => handleModelImageUpload img now) files s.

Definition modelAspectRatioChange (newRatio : AspectRatio) (now : Z) (s : AppState)
  : AppState :=
  handleAspectRatioChange (modelImage s) (fun img => handleModelImageUpload img now)
    newRatio s.

Definition garmentFileChange (files : list File) (now : Z) (s : AppState) : AppState :=
  handleFileChange (fun img => handleGarmentImageUpload img now) files s.

Definition garmentDrop (files : list File) (now : Z) (s : AppState) : AppState :=
  handleDrop (fun img => handleGarmentImageUpload img now) files s.

Definition garmentAspectRatioChange (newRatio : AspectRatio) (now : Z) (s : AppState)
  : AppState :=
  handleAspectRatioChange (garmentImage s) (fun img => handleGarmentImageUpload img now)
    newRatio s.

(** Line 92: [modelImage && garmentImage && !isLoading]. *)
Definition canGenerate (s : AppState) : bool :=
  match modelImage s, garmentImage s with
  | Some _, Some _ => negb (isLoading s)
  | _, _ => false
  end.

(** Every history entry carries a defined favorite flag. *)
Definition flags_defined (s : AppState) : Prop :=
  Forall (fun img => isFavorite img <> None) (history s) /\
  forall g, generatedImage s = Some g -> isFavorite g <> None.

End AppView.

(** components/ResultDisplay.tsx, what is left of it. *)
Module ResultView.
Import Viewer.
Local Open Scope string_scope.

Definition loadingMessages : list string :=
  [ "Warming up the AI stylist...";
    "Consulting with our AI fashion experts...";
    "Tailoring the perfect look...";
    "Stitching pixels together...";
    "Generating your style preview...";
    "Polishing the final look...";
    "Adding the finishing touches..." ].

(** Line 38, the updater run every 3 s while loading. *)
Definition nextMessageIndex (prevIndex : nat) : nat :=
  (prevIndex + 1) mod length loadingMessages.

(** Line 48: [mimeType.split('/')[1] || 'png']. *)
Definition fileExtension (mimeType : string) : string :=
  match JsString.split "/" mimeType with
  | _ :: sub :: _ => if String.eqb sub "" then "png" else sub
  | _ => "png"
  end.

(** Lines 44-53: the link that is clicked, as its [href] and its
    [download] name; nothing without an image. *)
Definition handleDownload (generatedImage : option ImageFile) (now : Z)
  : option (string * string) :=
  match generatedImage with
  | None => None
  | Some g =>
      Some ("data:" ++ mimeType g ++ ";base64," ++ data g,
            "virtual-try-on-" ++ Js.Number_toString now ++ "." ++ fileExtension (mimeType g))
  end.

(** Lines 76-88: the window listener, attached only while the modal is
    open. *)
Definition windowKeyDown (key : string) (s : State) : State :=
  if isModalOpen s then
    if String.eqb key "Escape" then closeModal s else s
  else s.

(** Lines 118-123: the key handler of the result tile. *)
Definition handleKeyDown (key : string) (generatedImage : option ImageFile) (s : State)
  : State :=
  if String.eqb key "Enter" || String.eqb key " " then openModal generatedImage s else s.

Definition isMouseEvent (e : Event) : bool :=
  match e with
  | MouseDown _ _ | MouseMove _ _ | MouseUpOrLeave => true
  | _ => false
  end.

End ResultView.

(** A session of three generations with a selection and a favorite. *)
Module Walkthrough.
Import Service App Samples.
Local Open Scope string_scope.

Definition events : list Event :=
  [ ModelImageUpload person 1700000000001;
    GarmentImageUpload shirt 1700000000002;
    GenerateBegin;
    GenerateSettle (inl answer) 1700000000500;
    GenerateBegin;
    GenerateSettle (inl answer) 1700000000900;
    ToggleFavorite "1700000000500";
    HistorySelect (flipFavorite (newImageOf answer 1700000000500)) ].

Definition final : AppState := fold_left step events initial.

End Walkthrough.

(** Sessions without any assumption on the clock's progress. *)
Module Session.
Import Service App Samples.
Local Open Scope string_scope.

(** What the interface allows: a thumbnail can only be selected if it is an
    entry of the history (lines 174-193 render the strip from [history]);
    [Date.now()] is a count of milliseconds that binary64 holds exactly.
    Two readings of the clock may agree. *)
Definition possible (s : AppState) (e : Event) : Prop :=
  match e with
  | HistorySelect image => image ∈ history s
  | GenerateSettle (inl _) now => (0 <= now <= 2 ^ 53)%Z
  | _ => True
  end.

Inductive attainable : AppState -> Prop :=
| attainable_initial : attainable initial
| attainable_step s e : attainable s -> possible s e -> attainable (step s e).

(** Two requests in flight at once (Clear All re-enables the generate
    button while the first is pending) that settle in the same
    millisecond. *)
Definition sameMillisecond : list Event :=
  [ ModelImageUpload person 1700000000001;
    GarmentImageUpload shirt 1700000000002;
    GenerateBegin;
    Clear;
    ModelImageUpload person 1700000000101;
    GarmentImageUpload shirt 1700000000102;
    GenerateBegin;
    GenerateSettle (inl answer) 1700000000500;
    GenerateSettle (inl answer) 1700000000500 ].

Definition clash : AppState := fold_left step sameMillisecond initial.

End Session.

(* ===================================================================== *)
(** * Properties *)
(* ===================================================================== *)

Section UploaderFacts.
Import Uploader.

Lemma Math_round_div_spec a b :
  0 < b ->
  2 * b * Math_round_div a b <= 2 * a + b < 2 * b * Math_round_div a b + 2 * b.
Proof.
  intros Hb. unfold Math_round_div.
  pose proof (Z.div_mod (2 * a + b) (2 * b) ltac:(lia)) as Hdm.
  pose proof (Z.mod_pos_bound (2 * a + b) (2 * b) ltac:(lia)) as Hm.
  lia.
Qed.

Lemma Math_round_div_nonneg a b : 0 <= a -> 0 < b -> 0 <= Math_round_div a b.
Proof.
  intros Ha Hb. unfold Math_round_div. apply Z.div_pos; lia.
Qed.

(** Scaling a side [a <= b] by [m / b] with [m < b] neither exceeds [m]
    nor [a]. *)
Lemma Math_round_div_le a b m :
  0 <= a -> a <= b -> 0 < m -> m < b ->
  Math_round_div (a * m) b <= m /\ Math_round_div (a * m) b <= a.
Proof.
  intros Ha Hab Hm Hmb.
  pose proof (Math_round_div_spec (a * m) b ltac:(lia)) as [Hlo _].
  split.
  - assert (2 * b * Math_round_div (a * m) b < 2 * b * (m + 1)) by nia. nia.
  - assert (2 * b * Math_round_div (a * m) b < 2 * b * (a + 1)) by nia. nia.
Qed.

Lemma constrain_bounds (w h : Z) :
  0 <= w -> 0 <= h ->
  let w' := fst (constrain w h) in
  let h' := snd (constrain w h) in
  (w' <= 1024 /\ h' <= 1024) /\
  (0 <= w' <= w /\ 0 <= h' <= h) /\
  (Z.max w h > 1024 ->
     Z.max w' h' = 1024 /\
     (w > h -> w' = 1024 /\ -w <= 2 * (h * 1024 - h' * w) < w) /\
     (w <= h -> h' = 1024 /\ -h <= 2 * (w * 1024 - w' * h) < h)) /\
  (Z.max w h <= 1024 -> w' = w /\ h' = h).
Proof.
  intros Hw Hh. unfold constrain, MAX_DIMENSION. cbv zeta.
  destruct (Z.gtb_spec w 1024) as [Hw1|Hw1];
    destruct (Z.gtb_spec h 1024) as [Hh1|Hh1];
    destruct (Z.gtb_spec w h) as [Hwh|Hwh]; cbn [orb fst snd];
    try lia;
    try (pose proof (Math_round_div_le h w 1024 ltac:(lia) ltac:(lia) ltac:(lia) ltac:(lia)) as [B1 B2];
         pose proof (Math_round_div_nonneg (h * 1024) w ltac:(lia) ltac:(lia)) as B3;
         pose proof (Math_round_div_spec (h * 1024) w ltac:(lia)) as B4; lia);
    try (pose proof (Math_round_div_le w h 1024 ltac:(lia) ltac:(lia) ltac:(lia) ltac:(lia)) as [B1 B2];
         pose proof (Math_round_div_nonneg (w * 1024) h ltac:(lia) ltac:(lia)) as B3;
         pose proof (Math_round_div_spec (w * 1024) h ltac:(lia)) as B4; lia).
Qed.

(** C2. For a decoded image of intrinsic size [w] x [h], the ingestion
    pipeline renders its output on a canvas of size [w'] x [h'] (the JPEG it
    returns is the one of that canvas, and it returns one whenever a 2-d
    context is available), where [w'] and [h'] never exceed 1024 nor the
    input's size; when [max w h > 1024] the longer edge becomes exactly 1024
    and the other edge is the nearest integer to its proportional value
    (half-way cases rounded up); otherwise the size is unchanged. *)
Theorem constrain_bounded_no_upscale (img : Raster) :
  0 <= width img -> 0 <= height img ->
  let w := width img in
  let h := height img in
  let w' := fst (constrain w h) in
  let h' := snd (constrain w h) in
  (has2dContext img = true ->
   resizeAndProcessImage (Some img)
   = inl {| id := randomUUID img; data := toJpegBase64 img w' h';
            mimeType := "image/jpeg"; aspectRatio := aspectOf w' h';
            isFavorite := None |}) /\
  (forall r, resizeAndProcessImage (Some img) = inl r ->
     data r = toJpegBase64 img w' h') /\
  (w' <= 1024 /\ h' <= 1024) /\
  (0 <= w' <= w /\ 0 <= h' <= h) /\
  (Z.max w h > 1024 ->
     Z.max w' h' = 1024 /\
     (w > h -> w' = 1024 /\ -w <= 2 * (h * 1024 - h' * w) < w) /\
     (w <= h -> h' = 1024 /\ -h <= 2 * (w * 1024 - w' * h) < h)) /\
  (Z.max w h <= 1024 -> w' = w /\ h' = h).
Proof.
  intros Hw Hh. cbv zeta.
  split; [|split; [|exact (constrain_bounds _ _ Hw Hh)]].
  - intros Hc. unfold resizeAndProcessImage.
    destruct (constrain (width img) (height img)) as [w' h'].
    rewrite Hc. reflexivity.
  - intros r. unfold resizeAndProcessImage.
    destruct (constrain (width img) (height img)) as [w' h'].
    destruct (has2dContext img); [|discriminate].
    intros [= <-]. reflexivity.
Qed.

Lemma constrain_bounded_no_upscale_witness :
  constrain 2000 1000 = (1024, 512) /\
  resizeAndProcessImage (Some Samples.photo) = inl Samples.person.
Proof.
  split; [reflexivity|].
  destruct (constrain_bounded_no_upscale Samples.photo ltac:(cbn; lia) ltac:(cbn; lia))
    as [H _].
  exact (H eq_refl).
Defined.

(** The two comparisons of [classify] exclude each other: no binary64 value
    is both above 1.1 and below 0.9. *)
Lemma float_lt_09_not_gt_11 (r : float) :
  PrimFloat.ltb r 0.9%float = true -> PrimFloat.ltb 1.1%float r = false.
Proof.
  rewrite !FloatAxioms.ltb_spec.
  replace (Prim2SF 0.9%float) with (S754_finite false 8106479329266893 (-53))
    by (vm_compute; reflexivity).
  replace (Prim2SF 1.1%float) with (S754_finite false 4953959590107546 (-52))
    by (vm_compute; reflexivity).
  destruct (Prim2SF r) as [s|s| |s m e]; unfold SFltb, SFcompare;
    try destruct s; try reflexivity; try discriminate.
  destruct (Z.compare_spec e (-53)) as [He|He|He];
    destruct (Z.compare_spec (-52) e) as [He'|He'|He']; try lia;
    try reflexivity; try discriminate.
Qed.

Lemma float_le_not_gt (c r : float) :
  PrimFloat.leb r c = true -> PrimFloat.ltb c r = false.
Proof.
  rewrite FloatAxioms.ltb_spec, FloatAxioms.leb_spec.
  destruct (Prim2SF r) as [s|s| |s m e], (Prim2SF c) as [t|t| |t n f];
    unfold SFltb, SFleb, SFcompare;
    try destruct s; try destruct t; try reflexivity; try discriminate.
  all: rewrite (Z.compare_antisym e f);
    pose proof (Pos.compare_cont_antisym n m Eq) as Ha; cbn in Ha;
    rewrite <- Ha;
    destruct (e ?= f), (Pos.compare_cont Eq n m); cbn; congruence.
Qed.

(** C3. The aspect class is a function of the final width/height ratio
    alone: a ratio above 1.1 is landscape, a ratio below 0.9 is portrait,
    every ratio in [0.9, 1.1] is square; 1.15 is landscape, 0.95 is square,
    0.85 is portrait and 1.0 is square. *)
Theorem classify_thresholds :
  (forall img r,
     resizeAndProcessImage (Some img) = inl r ->
     let w := fst (constrain (width img) (height img)) in
     let h := snd (constrain (width img) (height img)) in
     aspectRatio r = classify (PrimFloat.div (toNumber w) (toNumber h))) /\
  (forall ratio : float,
     (PrimFloat.ltb 1.1%float ratio = true -> classify ratio = landscape) /\
     (PrimFloat.ltb ratio 0.9%float = true -> classify ratio = portrait) /\
     (PrimFloat.leb 0.9%float ratio = true ->
      PrimFloat.leb ratio 1.1%float = true -> classify ratio = square)) /\
  classify 1.15%float = landscape /\
  classify 0.95%float = square /\
  classify 0.85%float = portrait /\
  classify 1.0%float = square.
Proof.
  split; [|split; [|vm_compute; auto]].
  - intros img r. unfold resizeAndProcessImage.
    destruct (constrain (width img) (height img)) as [w h].
    destruct (has2dContext img); [|discriminate].
    intros [= <-]. reflexivity.
  - intros ratio. unfold classify. repeat split.
    + intros ->. reflexivity.
    + intros H. rewrite (float_lt_09_not_gt_11 _ H), H. reflexivity.
    + intros H1 H2.
      rewrite (float_le_not_gt _ _ H2), (float_le_not_gt _ _ H1). reflexivity.
Qed.

Lemma classify_thresholds_witness :
  classify 1.5%float = landscape /\
  classify 0.5%float = portrait /\
  classify 1.1%float = square /\
  classify 0.9%float = square /\
  aspectRatio Samples.person = classify (PrimFloat.div (toNumber 1024) (toNumber 512)).
Proof.
  destruct classify_thresholds as [H0 [H _]].
  split; [|split; [|split; [|split]]].
  - apply (proj1 (H 1.5%float)). vm_compute. reflexivity.
  - apply (proj1 (proj2 (H 0.5%float))). vm_compute. reflexivity.
  - apply (proj2 (proj2 (H 1.1%float))); vm_compute; reflexivity.
  - apply (proj2 (proj2 (H 0.9%float))); vm_compute; reflexivity.
  - exact (H0 Samples.photo Samples.person eq_refl).
Defined.

(** The two uploads of the end-to-end scenario: a 2000 x 1000 photo becomes
    1024 x 512 and landscape, a 500 x 500 one stays as it is and is square. *)
Example ingest_2000x1000 :
  constrain 2000 1000 = (1024, 512) /\ aspectOf 1024 512 = landscape.
Proof. split; vm_compute; reflexivity. Qed.

Example ingest_500x500 :
  constrain 500 500 = (500, 500) /\ aspectOf 500 500 = square.
Proof. split; vm_compute; reflexivity. Qed.

Example ingest_rounds_half_up : constrain 2048 1025 = (1024, 513).
Proof. reflexivity. Qed.

End UploaderFacts.

Section ViewerFacts.
Import Viewer.
Local Open Scope Q_scope.

Lemma step_zoom_in_range s e : zoom_in_range s -> zoom_in_range (step s e).
Proof.
  unfold zoom_in_range. intros [Hlo Hhi].
  destruct e; cbn;
    unfold openModal, handleMouseDown, handleMouseMove, Math_min, Math_max,
      MAX_ZOOM, MIN_ZOOM, ZOOM_STEP;
    repeat match goal with
           | |- context [match ?g with Some _ => _ | None => _ end] => destruct g
           | |- context [if ?b then _ else _] => destruct b
           end; cbn; try (split; assumption); try (split; discriminate).
  - split.
    + apply Q.min_glb; [|discriminate].
      apply Qle_trans with (zoom s); [assumption|].
      rewrite <- (Qplus_0_r (zoom s)) at 1. apply Qplus_le_r. discriminate.
    + apply Q.le_min_r.
  - split.
    + apply Q.le_max_r.
    + apply Q.max_lub; [|discriminate].
      apply Qle_trans with (zoom s); [|assumption].
      apply Qle_minus_iff. ring_simplify. discriminate.
  - split; [apply Q.le_max_l|].
    apply Q.max_lub; [discriminate|apply Q.le_min_r].
  - split; [apply Q.le_max_l|].
    apply Q.max_lub; [discriminate|apply Q.le_min_r].
Qed.

Lemma run_zoom_in_range es : forall s, zoom_in_range s -> zoom_in_range (run s es).
Proof.
  induction es as [|e es IH]; intros s Hs; cbn; [assumption|].
  apply IH, step_zoom_in_range, Hs.
Qed.

(** C8. Along every sequence of viewer transitions (wheel, zoom in, zoom
    out, reset, drag, open, close) the zoom level stays within [1, 5], and
    resetting the view from a zoomed or panned state gives exactly zoom 1 and
    the pan at the origin. *)
Theorem zoom_clamped_and_reset :
  (forall es, 1 <= zoom (run initial es) <= 5) /\
  (forall s es, 1 <= zoom s <= 5 -> 1 <= zoom (run s es) <= 5) /\
  (forall s, 1 < zoom s \/ position s <> origin ->
     zoom (handleResetZoom s) = 1 /\ position (handleResetZoom s) = origin).
Proof.
  split; [|split].
  - intros es. apply (run_zoom_in_range es initial). split; discriminate.
  - intros s es Hs. apply (run_zoom_in_range es s Hs).
  - intros s _. split; reflexivity.
Qed.

Lemma zoom_clamped_and_reset_witness :
  let s := run initial [ZoomIn; Wheel (-3); MouseDown 10 10; MouseMove 40 25] in
  (1 <= zoom (run s [ZoomIn; ZoomIn; ZoomOut]) <= 5) /\
  (zoom (handleResetZoom s) = 1 /\ position (handleResetZoom s) = origin).
Proof.
  destruct zoom_clamped_and_reset as [_ [H1 H2]].
  split.
  - apply H1. vm_compute. split; discriminate.
  - apply H2. left. vm_compute. reflexivity.
Defined.

End ViewerFacts.

Section ServiceFacts.
Import Service.
Local Open Scope string_scope.
Variable generateContent : Request -> GenerateContentResponse + Thrown.

Lemma firstImage_portrait ps r : firstImage ps = Some r -> result_aspectRatio r = portrait.
Proof.
  induction ps as [|p ps IH]; cbn; [discriminate|].
  destruct (inlineData p); [|exact IH].
  intros [= <-]. reflexivity.
Qed.

Lemma generate_resolves_portrait m g prompt r :
  generateVirtualTryOnImage generateContent m g prompt = inl r ->
  result_aspectRatio r = portrait.
Proof.
  unfold generateVirtualTryOnImage, attempt.
  destruct (generateContent _) as [resp|[msg|]]; try discriminate.
  destruct (firstImage (responseParts resp)) as [r'|] eqn:E; [|discriminate].
  intros [= <-]. exact (firstImage_portrait _ _ E).
Qed.

(** The service only ever rejects with an [Error] whose message is not
    empty. *)
Lemma generate_rejects_with_message m g prompt e :
  generateVirtualTryOnImage generateContent m g prompt = inr e ->
  exists msg, e = ErrorObj msg /\ String.eqb msg "" = false.
Proof.
  unfold generateVirtualTryOnImage.
  destruct (attempt generateContent m g prompt) as [r|[msg|]]; [discriminate| |];
    intros [= <-]; eexists; (split; [reflexivity|reflexivity]).
Qed.

End ServiceFacts.

Section ControllerFacts.
Import Service App.
Local Open Scope string_scope.
Variable generateContent : Request -> GenerateContentResponse + Thrown.

(** C1 (as amended). When generation fails, the error state holds the
    service's message verbatim and the loading flag is cleared; handling the
    failure changes neither the history nor the displayed result, whatever
    happened while the request was pending.  The displayed result of before
    the attempt is not kept, though: starting the attempt clears it, and the
    failure does not bring it back. *)
Theorem generate_failure (now : Z) (s : AppState) (m g : ImageFile) (e : Thrown)
    (pending : list Event) :
  modelImage s = Some m ->
  garmentImage s = Some g ->
  generateVirtualTryOnImage generateContent m g (customPrompt s) = inr e ->
  let started := step s GenerateBegin in
  let before := fold_left step pending started in
  let s' := step before (GenerateSettle (inr e) now) in
  (generatedImage started = None /\ history started = history s) /\
  (exists msg, e = ErrorObj msg /\ error s' = Some msg) /\
  isLoading s' = false /\
  history s' = history before /\
  generatedImage s' = generatedImage before /\
  (pending = [] -> history s' = history s /\ generatedImage s' = None).
Proof.
  intros Hm Hg He. cbv zeta. cbn [step]. rewrite Hm, Hg.
  destruct (generate_rejects_with_message _ _ _ _ _ He) as (msg & -> & Hmsg).
  split; [split; reflexivity|].
  split.
  { exists msg. split; [reflexivity|]. cbn. rewrite Hmsg. reflexivity. }
  split; [reflexivity|]. split; [reflexivity|]. split; [reflexivity|].
  intros ->. split; reflexivity.
Qed.

(** C7. With both slots occupied and a successful generation, one new image
    record is built, with aspect class portrait and the favorite flag false;
    it becomes the displayed result and the first entry of the history. *)
Theorem generate_success (now : Z) (s : AppState) (m g : ImageFile) (r : ResultData) :
  modelImage s = Some m ->
  garmentImage s = Some g ->
  generateVirtualTryOnImage generateContent m g (customPrompt s) = inl r ->
  let s' := handleGenerate generateContent now s in
  let newImage :=
    {| id := Js.Number_toString now; data := result_data r;
       mimeType := result_mimeType r; aspectRatio := portrait;
       isFavorite := Some false |} in
  generatedImage s' = Some newImage /\
  history s' !! 0%nat = Some newImage /\
  history s' = take 5 (newImage :: history s) /\
  error s' = None /\
  isLoading s' = false.
Proof.
  intros Hm Hg Hr. unfold handleGenerate. rewrite Hm, Hg, Hr. cbn.
  unfold newImageOf. rewrite (generate_resolves_portrait _ _ _ _ _ Hr).
  repeat split.
Qed.

End ControllerFacts.

Section ControllerSamples.
Import Service App Samples.
Local Open Scope string_scope.

Lemma generate_failure_witness :
  let s' := fold_left step
              [ GenerateBegin; HistorySelect earlier;
                GenerateSettle (inr (ErrorObj "Failed to generate image: quota exceeded"))
                  1700000000500 ] session in
  error s' = Some "Failed to generate image: quota exceeded" /\
  history s' = [earlier] /\
  generatedImage s' = Some earlier.
Proof.
  destruct (generate_failure refusing 1700000000500 session person shirt
              (ErrorObj "Failed to generate image: quota exceeded")
              [HistorySelect earlier]
              eq_refl eq_refl eq_refl) as (_ & (msg & Hmsg & Herr) & _ & Hh & Hg & _).
  injection Hmsg as <-.
  split; [exact Herr|]. split; [exact Hh|exact Hg].
Defined.

(** Counterexample to C1 as stated: after a failed generation the displayed
    result is not the one shown before the call. *)
Lemma generate_failure_drops_result :
  let s' := handleGenerate refusing 1700000000500 session in
  generateVirtualTryOnImage refusing person shirt (customPrompt session)
  = inr (ErrorObj "Failed to generate image: quota exceeded") /\
  ~ (error s' = Some "Failed to generate image: quota exceeded" /\
     generatedImage s' = generatedImage session /\
     history s' = history session).
Proof.
  split; [reflexivity|].
  intros (_ & H & _). discriminate H.
Qed.

Lemma generate_success_witness :
  let s' := handleGenerate answering 1700000000500 session in
  let newImage :=
    {| id := "1700000000500"; data := "iVBORw0KGgo"; mimeType := "image/png";
       aspectRatio := portrait; isFavorite := Some false |} in
  generatedImage s' = Some newImage /\
  history s' !! 0%nat = Some newImage /\
  history s' = [newImage; earlier].
Proof.
  destruct (generate_success answering 1700000000500 session person shirt
              {| result_data := "iVBORw0KGgo"; result_mimeType := "image/png";
                 result_aspectRatio := portrait |}
              eq_refl eq_refl eq_refl) as (Hg & H0 & Hh & _).
  split; [exact Hg|]. split; [exact H0|exact Hh].
Defined.

End ControllerSamples.

Section HistoryFacts.
Import Service App.

Lemma pushHistory_length newImage prev : (length (pushHistory newImage prev) <= 5)%nat.
Proof. unfold pushHistory, Js.slice0. rewrite length_take. lia. Qed.

Lemma pushHistory_fold_length imgs : forall prev,
  (length prev <= 5)%nat ->
  (length (fold_left (fun h img => pushHistory img h) imgs prev) <= 5)%nat.
Proof.
  induction imgs as [|img imgs IH]; intros prev Hp; cbn; [exact Hp|].
  apply IH, pushHistory_length.
Qed.

(** C4. Inserting a generated image puts it at the front and leaves at most
    5 entries; a history that already has 5 entries loses its last entry,
    whatever the favorite flags are; hence no number of insertions takes the
    history beyond 5 entries. *)
Theorem history_insert_bounded (newImage : ImageFile) (prev : list ImageFile) :
  (forall s r now,
     history (handleGenerate_settle (inl r) now s)
     = pushHistory (newImageOf r now) (history s)) /\
  head (pushHistory newImage prev) = Some newImage /\
  (length (pushHistory newImage prev) <= 5)%nat /\
  (length prev < 5 -> pushHistory newImage prev = newImage :: prev)%nat /\
  (length prev = 5%nat -> pushHistory newImage prev = newImage :: removelast prev) /\
  (length prev <= 5 ->
   forall imgs, length (fold_left (fun h img => pushHistory img h) imgs prev) <= 5)%nat.
Proof.
  split; [reflexivity|]. split; [reflexivity|].
  split; [apply pushHistory_length|].
  split; [|split].
  - intros H. unfold pushHistory, Js.slice0. cbn. f_equal. apply take_ge. lia.
  - intros H. unfold pushHistory, Js.slice0.
    do 5 (destruct prev as [|? prev]; [discriminate H|]).
    destruct prev; [reflexivity|discriminate H].
  - intros H imgs. apply pushHistory_fold_length, H.
Qed.

Lemma history_insert_bounded_witness :
  let fav n := {| id := n; data := "d"; mimeType := "image/png";
                  aspectRatio := portrait; isFavorite := Some true |} in
  let new := {| id := "6"; data := "d"; mimeType := "image/png";
                aspectRatio := portrait; isFavorite := Some false |} in
  pushHistory new [fav "5"; fav "4"; fav "3"; fav "2"; fav "1"]
  = [new; fav "5"; fav "4"; fav "3"; fav "2"].
Proof.
  intros fav new.
  exact (proj1 (proj2 (proj2 (proj2 (proj2
           (history_insert_bounded new [fav "5"; fav "4"; fav "3"; fav "2"; fav "1"])))))
         eq_refl).
Defined.

Lemma toggleIn_lookup i h k img :
  h !! k = Some img ->
  toggleIn i h !! k = Some (if String.eqb (id img) i then flipFavorite img else img).
Proof.
  intros H. unfold toggleIn. rewrite list_lookup_fmap, H. reflexivity.
Qed.

Lemma toggleIn_absent i h :
  (forall img, img ∈ h -> id img <> i) -> toggleIn i h = h.
Proof.
  unfold toggleIn.
  induction h as [|a h IH]; intros H; cbn; [reflexivity|].
  rewrite IH by (intros img Hin; apply H; now right).
  destruct (String.eqb_spec (id a) i) as [E|E]; [|reflexivity].
  exfalso. apply (H a); [now left|exact E].
Qed.

Lemma history_toggle i s : history (handleToggleFavorite i s) = toggleIn i (history s).
Proof.
  unfold handleToggleFavorite. destruct (generatedImage s) as [g|]; [|reflexivity].
  destruct (String.eqb (id g) i); reflexivity.
Qed.

(** C9. Toggling a favorite flips the flag of the entries whose id matches
    and nothing else: the list keeps its length and order, every entry keeps
    its id, data, media type and aspect class, entries with another id are
    untouched, and with no matching entry the history is unchanged. *)
Theorem toggle_favorite_frame (i : string) (s : AppState) :
  let h := history s in
  let h' := history (handleToggleFavorite i s) in
  length h' = length h /\
  (forall k img, h !! k = Some img ->
     exists img', h' !! k = Some img' /\
       id img' = id img /\ data img' = data img /\
       mimeType img' = mimeType img /\ aspectRatio img' = aspectRatio img /\
       (id img = i -> isFavorite img' = Some (negb (truthy (isFavorite img)))) /\
       (id img <> i -> img' = img)) /\
  ((forall img, img ∈ h -> id img <> i) -> h' = h).
Proof.
  cbv zeta. rewrite history_toggle. split; [|split].
  - unfold toggleIn. apply length_map.
  - intros k img Hk. eexists. split; [apply toggleIn_lookup, Hk|].
    destruct (String.eqb_spec (id img) i) as [E|E]; cbn; repeat split; congruence.
  - apply toggleIn_absent.
Qed.

Lemma toggle_favorite_frame_witness :
  let a := {| id := "1"; data := "a"; mimeType := "image/png";
              aspectRatio := portrait; isFavorite := Some false |} in
  let b := {| id := "2"; data := "b"; mimeType := "image/png";
              aspectRatio := portrait; isFavorite := Some true |} in
  let s := setHistory [a; b] initial in
  history (handleToggleFavorite "2" s) = [a; flipFavorite b] /\
  history (handleToggleFavorite "3" s) = history s.
Proof.
  cbv zeta. split; [reflexivity|].
  apply (proj2 (proj2 (toggle_favorite_frame "3" _))).
  intros img Hin E. cbn in Hin.
  apply list_elem_of_In in Hin. cbn in Hin.
  destruct Hin as [<-|[<-|[]]]; discriminate E.
Defined.

End HistoryFacts.

Section FavoriteFacts.
Import Service App.

Lemma flipFavorite_id img : id (flipFavorite img) = id img.
Proof. reflexivity. Qed.





Lemma generated_toggle i s :
  generatedImage (handleToggleFavorite i s)
  = match generatedImage s with
    | Some g => Some (if String.eqb (id g) i then flipFavorite g else g)
    | None => None
    end.
Proof.
  unfold handleToggleFavorite.
  destruct (generatedImage s) as [g|] eqn:Eg; cbn; [|exact Eg].
  destruct (String.eqb (id g) i); cbn; rewrite Eg; reflexivity.
Qed.



End FavoriteFacts.

Section FavoriteSamples.
Import Service App Samples.
Local Open Scope string_scope.


End FavoriteSamples.

Section JsFacts.
Import Js.
Local Open Scope string_scope.

Lemma string_of_uint_digits d : allDigitChars (NilEmpty.string_of_uint d) = true.
Proof. induction d; cbn; assumption || reflexivity. Qed.

Lemma digitValue_digit c :
  isDigitChar c = true -> exists k, digitValue c = Some k /\ 0 <= k < 10.
Proof.
  destruct c as [[] [] [] [] [] [] [] []]; vm_compute; intros H;
    try discriminate H; eexists; (split; [reflexivity|split; discriminate || reflexivity]).
Qed.

Lemma readDigits_start s :
  allDigitChars s = true -> s <> "" ->
  readDigits 10 None s = readDigits 10 (Some 0) s.
Proof.
  destruct s as [|c r]; [congruence|]. cbn [allDigitChars readDigits].
  intros H _. apply andb_prop in H as [Hc _].
  destruct (digitValue_digit c Hc) as (k & -> & Hk).
  destruct (Z.ltb_spec k 10); [reflexivity|lia].
Qed.

Lemma readDigits_acc d : forall acc : positive,
  readDigits 10 (Some (Z.pos acc)) (NilEmpty.string_of_uint d)
  = Some (Z.pos (Pos.of_uint_acc d acc)).
Proof.
  induction d; intros acc; [reflexivity|..];
    cbn [NilEmpty.string_of_uint Pos.of_uint_acc];
    (etransitivity; [|apply IHd]); cbn [readDigits];
    match goal with
    | |- context [digitValue ?c] =>
        let v := eval vm_compute in (digitValue c) in
        change (digitValue c) with v
    end; cbn match;
    match goal with
    | |- context [(?k <? 10)%Z] => change (k <? 10)%Z with true
    end; cbn match; do 2 f_equal; lia.
Qed.

Lemma readDigits_zero d :
  readDigits 10 (Some 0) (NilEmpty.string_of_uint d) = Some (Z.of_N (Pos.of_uint d)).
Proof.
  induction d; [reflexivity|..];
    cbn [NilEmpty.string_of_uint Pos.of_uint Z.of_N];
    [rewrite <- IHd|rewrite <- readDigits_acc..]; reflexivity.
Qed.

Lemma trimStart_digits s : allDigitChars s = true -> trimStart s = s.
Proof.
  destruct s as [|c r]; [reflexivity|]. cbn [allDigitChars trimStart].
  intros H. apply andb_prop in H as [Hc _].
  destruct c as [[] [] [] [] [] [] [] []]; try discriminate Hc; reflexivity.
Qed.

Lemma parseSign_digits s : allDigitChars s = true -> parseSign s = (1, s).
Proof.
  destruct s as [|c r]; [reflexivity|]. cbn [allDigitChars].
  intros H. apply andb_prop in H as [Hc _].
  destruct c as [[] [] [] [] [] [] [] []]; try discriminate Hc; reflexivity.
Qed.

Lemma parseRadix_digits s : allDigitChars s = true -> parseRadix s = (10, s).
Proof.
  destruct s as [|c r]; [reflexivity|]. cbn [allDigitChars].
  intros H. apply andb_prop in H as [Hc Hr].
  destruct c as [[] [] [] [] [] [] [] []]; try discriminate Hc; try reflexivity.
  destruct r as [|c r]; [reflexivity|]. cbn [allDigitChars] in Hr.
  apply andb_prop in Hr as [Hc' _].
  destruct c as [[] [] [] [] [] [] [] []]; try discriminate Hc'; reflexivity.
Qed.

Lemma parseInt_Number_toString n : 0 <= n -> parseInt (Number_toString n) = Some n.
Proof.
  intros Hn. destruct n as [|p|p]; [reflexivity| |lia].
  unfold Number_toString. cbn [Z.to_int NilZero.string_of_int].
  pose proof (DecimalPos.Unsigned.to_uint_nonnil p) as Hp.
  assert (NilZero.string_of_uint (Pos.to_uint p) = NilEmpty.string_of_uint (Pos.to_uint p)) as ->.
  { unfold NilZero.string_of_uint. destruct (Pos.to_uint p); congruence. }
  pose proof (string_of_uint_digits (Pos.to_uint p)) as Hd.
  unfold parseInt.
  rewrite (trimStart_digits _ Hd), (parseSign_digits _ Hd), (parseRadix_digits _ Hd).
  rewrite readDigits_start, readDigits_zero, DecimalPos.Unsigned.of_to.
  - reflexivity.
  - exact Hd.
  - destruct (Pos.to_uint p); discriminate || congruence.
Qed.
End JsFacts.

Section SortFacts.
Context {A : Type} (comparefn : A -> A -> option Z).
Abbreviation cmp := (Js.sortCompare comparefn).
Abbreviation insertSorted := (Js.insertSorted comparefn).
Abbreviation Array_sort := (Js.Array_sort comparefn).

Lemma insertSorted_perm a l : insertSorted a l ≡ₚ a :: l.
Proof.
  induction l as [|b l IH]; cbn; [reflexivity|].
  destruct (0 <? cmp a b); [|reflexivity].
  rewrite IH. apply Permutation_swap.
Qed.

Lemma Array_sort_perm l : Array_sort l ≡ₚ l.
Proof.
  induction l as [|a l IH]; cbn; [reflexivity|].
  rewrite insertSorted_perm, IH. reflexivity.
Qed.

(** Stability: a class of entries of which the comparator never puts one
    after the other keeps its order. *)
Section Stable.
Context (Q : A -> Prop) `{!forall x, Decision (Q x)}.
Hypothesis Q_ties : forall a b, Q a -> Q b -> 0 < cmp a b -> False.

Lemma insertSorted_filter a l : filter Q (insertSorted a l) = filter Q (a :: l).
Proof.
  induction l as [|b l IH]; cbn; [reflexivity|].
  destruct (Z.ltb_spec 0 (cmp a b)) as [Hlt|Hle]; [|reflexivity].
  rewrite filter_cons, IH, !filter_cons.
  destruct (decide (Q a)) as [Ha|Ha], (decide (Q b)) as [Hb|Hb]; try reflexivity.
  destruct (Q_ties a b Ha Hb Hlt).
Qed.

Lemma Array_sort_filter l : filter Q (Array_sort l) = filter Q l.
Proof.
  induction l as [|a l IH]; cbn; [reflexivity|].
  rewrite insertSorted_filter, !filter_cons, IH. reflexivity.
Qed.

End Stable.

(** Sortedness, for a transitive order that the comparator decides on the
    entries satisfying [P]. *)
Section Sorted.
Context (P : A -> Prop) (R : A -> A -> Prop).
Hypothesis R_trans : forall a b c, R a b -> R b c -> R a c.
Hypothesis cmp_gt : forall a b, P a -> P b -> 0 < cmp a b -> R b a.
Hypothesis cmp_le : forall a b, P a -> P b -> cmp a b <= 0 -> R a b.

Lemma insertSorted_sorted a l :
  P a -> Forall P l -> StronglySorted R l -> StronglySorted R (insertSorted a l).
Proof.
  intros Pa. induction l as [|b l IH]; intros Pl Sl; cbn.
  - repeat constructor.
  - apply Forall_cons in Pl as [Pb Pl].
    apply StronglySorted_inv in Sl as [Sl Hb].
    destruct (Z.ltb_spec 0 (cmp a b)) as [Hlt|Hle].
    + constructor; [apply IH; assumption|].
      rewrite insertSorted_perm. constructor; [|exact Hb].
      apply cmp_gt; assumption.
    + assert (R a b) as Rab by (apply cmp_le; assumption).
      constructor; [constructor; assumption|].
      constructor; [exact Rab|].
      eapply Forall_impl; [exact Hb|]. intros c Rbc. exact (R_trans _ _ _ Rab Rbc).
Qed.

Lemma Array_sort_sorted l : Forall P l -> StronglySorted R (Array_sort l).
Proof.
  induction l as [|a l IH]; intros Pl; cbn; [constructor|].
  apply Forall_cons in Pl as [Pa Pl].
  apply insertSorted_sorted; [exact Pa| |apply IH, Pl].
  rewrite Array_sort_perm. exact Pl.
Qed.

End Sorted.

End SortFacts.

Section DisplayOrderFacts.
Import Service App.

Lemma numericId_parse img : numericId img = true -> exists n, Js.parseInt (id img) = Some n.
Proof.
  unfold numericId. destruct (Js.parseInt (id img)) as [n|]; [eauto|discriminate].
Qed.

Lemma displaysBefore_trans a b c :
  displaysBefore a b -> displaysBefore b c -> displaysBefore a c.
Proof.
  unfold displaysBefore.
  intros [[Ha Hb]|[Hab (x & y & Hx & Hy & Hxy)]] [[Hb' Hc]|[Hbc (y' & z & Hy' & Hz & Hyz)]].
  - congruence.
  - left. split; congruence.
  - left. split; congruence.
  - right. split; [congruence|].
    exists x, z. repeat split; try assumption.
    assert (y = y') by congruence. lia.
Qed.

Lemma compareHistory_gt a b :
  numericId a = true -> numericId b = true ->
  0 < Js.sortCompare compareHistory a b -> displaysBefore b a.
Proof.
  intros Ha Hb. apply numericId_parse in Ha as [x Hx]. apply numericId_parse in Hb as [y Hy].
  unfold Js.sortCompare, compareHistory, displaysBefore. rewrite Hx, Hy.
  destruct (truthy (isFavorite a)), (truthy (isFavorite b)); cbn; intros H;
    unfold Js.minus in H; cbn in H; try lia.
  all: right; split; [reflexivity|]; exists y, x; repeat split; try assumption; lia.
Qed.

Lemma compareHistory_le a b :
  numericId a = true -> numericId b = true ->
  Js.sortCompare compareHistory a b <= 0 -> displaysBefore a b.
Proof.
  intros Ha Hb. apply numericId_parse in Ha as [x Hx]. apply numericId_parse in Hb as [y Hy].
  unfold Js.sortCompare, compareHistory, displaysBefore. rewrite Hx, Hy.
  destruct (truthy (isFavorite a)), (truthy (isFavorite b)); cbn; intros H;
    unfold Js.minus in H; cbn in H; try lia.
  all: try (left; split; reflexivity).
  all: right; split; [reflexivity|]; exists x, y; repeat split; try assumption; lia.
Qed.

Lemma compareHistory_ties f n a b :
  sameRank f n a -> sameRank f n b -> 0 < Js.sortCompare compareHistory a b -> False.
Proof.
  intros [Fa Ia] [Fb Ib]. unfold Js.sortCompare, compareHistory.
  rewrite Fa, Fb, Ia, Ib. destruct f; cbn; lia.
Qed.

Lemma sortedHistory_spec (h : list ImageFile) :
  forallb numericId h = true -> displayOrderOf h (sortedHistory h).
Proof.
  intros Hn. unfold displayOrderOf, sortedHistory.
  split; [apply Array_sort_perm|]. split.
  - apply (Array_sort_sorted compareHistory (fun img => numericId img = true)).
    + exact displaysBefore_trans.
    + exact compareHistory_gt.
    + exact compareHistory_le.
    + apply Forall_forall. intros x Hx. apply list_elem_of_In in Hx.
      exact (proj1 (forallb_forall _ _) Hn x Hx).
  - intros f n. apply Array_sort_filter. exact (compareHistory_ties f n).
Qed.

Lemma numericId_newImageOf r now :
  0 <= now <= 2 ^ 53 -> numericId (newImageOf r now) = true.
Proof.
  intros Hnow. unfold numericId, newImageOf. cbn [id].
  rewrite parseInt_Number_toString by lia.
  apply Z.leb_le. lia.
Qed.

(** Every entry of a session's history has a numeric id. *)
Lemma reachable_history_numeric s :
  reachable s -> Forall (fun img => numericId img = true) (history s).
Proof.
  induction 1 as [|s e Hs IH He]; [constructor|].
  destruct e; cbn in He |- *; try exact IH.
  - destruct (modelImage s), (garmentImage s); exact IH.
  - destruct outcome as [r|err]; cbn; [|exact IH].
    constructor; [apply numericId_newImageOf, He|apply Forall_take, IH].
  - constructor.
  - constructor.
  - rewrite history_toggle. unfold toggleIn. apply Forall_fmap.
    eapply Forall_impl; [exact IH|]. intros img Himg. cbn.
    destruct (String.eqb (id img) i); exact Himg.
Qed.

(** C5. The displayed history is the stored one reordered: favorites stand
    before non-favorites, within each group the numeric ids descend, and
    entries of the same group with the same numeric id keep the order they
    have in the stored history.  This holds for every history whose ids are
    numeric, hence for the history of every state a session can reach.  For
    ids 3, 1, 2 with only the second a favorite, the displayed order is
    1, 3, 2. *)
Theorem sortedHistory_display_order :
  (forall h, forallb numericId h = true -> displayOrderOf h (sortedHistory h)) /\
  (forall s, reachable s -> displayOrderOf (history s) (sortedHistory (history s))) /\
  (forall d,
     map id (sortedHistory
       [ {| id := "3"; data := d; mimeType := "image/png";
            aspectRatio := portrait; isFavorite := Some false |};
         {| id := "1"; data := d; mimeType := "image/png";
            aspectRatio := portrait; isFavorite := Some true |};
         {| id := "2"; data := d; mimeType := "image/png";
            aspectRatio := portrait; isFavorite := Some false |} ])
     = ["1"; "3"; "2"]%string).
Proof.
  split; [exact sortedHistory_spec|]. split; [|intros d; reflexivity].
  intros s Hs. apply sortedHistory_spec.
  apply forallb_forall. intros x Hx. apply list_elem_of_In in Hx.
  exact (proj1 (Forall_forall _ _) (reachable_history_numeric s Hs) x Hx).
Qed.

End DisplayOrderFacts.

Section DisplayOrderSamples.
Import Service App.
Local Open Scope string_scope.

Lemma sortedHistory_display_order_witness :
  let img i f := {| id := i; data := "iVBORw0K"; mimeType := "image/png";
                    aspectRatio := portrait; isFavorite := f |} in
  let h := [img "1700000000300" (Some false); img "1700000000100" (Some true);
            img "1700000000200" (Some false); img "1700000000100" None] in
  let s := step (step initial (GenerateSettle (inl Samples.answer) 1700000000500))
                (ToggleFavorite "1700000000500") in
  sortedHistory h
  = [img "1700000000100" (Some true); img "1700000000300" (Some false);
     img "1700000000200" (Some false); img "1700000000100" None] /\
  displayOrderOf h (sortedHistory h) /\
  displayOrderOf (history s) (sortedHistory (history s)).
Proof.
  intros img h s. split; [reflexivity|]. split.
  - apply (proj1 sortedHistory_display_order h). reflexivity.
  - apply (proj1 (proj2 sortedHistory_display_order) s).
    apply reachable_step; [|exact I].
    apply reachable_step; [apply reachable_initial|].
    cbn. split; [lia|apply not_elem_of_nil].
Defined.

End DisplayOrderSamples.

Section JsonFacts.
Import Json.
Local Open Scope string_scope.
#[local] Arguments String.append !s1 s2 : simpl nomatch.

Lemma append_assoc (a b c : string) : (a ++ b) ++ c = a ++ (b ++ c).
Proof.
  induction a as [|x a IH]; cbn; [reflexivity|].
  f_equal. exact IH.
Qed.

Lemma append_length (a b : string) :
  String.length (a ++ b) = (String.length a + String.length b)%nat.
Proof.
  induction a as [|x a IH]; cbn; [reflexivity|].
  f_equal. exact IH.
Qed.

Lemma parseChars_escapeChar c s :
  parseChars (escapeChar c ++ s) = consChar c (parseChars s).
Proof.
  destruct c as [[] [] [] [] [] [] [] []]; reflexivity.
Qed.

Lemma parseChars_escape s rest :
  parseChars (escape s ++ String dquote rest) = Some (s, rest).
Proof.
  induction s as [|c s IH]; [reflexivity|].
  cbn [escape]. rewrite append_assoc, parseChars_escapeChar, IH. reflexivity.
Qed.

Lemma parseChars_quote s rest :
  exists r, quote s ++ rest = String dquote r /\ parseChars r = Some (s, rest).
Proof.
  unfold quote. eexists. split; [reflexivity|].
  rewrite append_assoc. apply parseChars_escape.
Qed.

Lemma string_of_uint_chars d : allNumberChars (NilEmpty.string_of_uint d) = true.
Proof. induction d; cbn; assumption || reflexivity. Qed.

Lemma Number_toString_chars n : allNumberChars (Js.Number_toString n) = true.
Proof.
  unfold Js.Number_toString, NilZero.string_of_int, NilZero.string_of_uint.
  destruct (Z.to_int n) as [d|d]; destruct d; try reflexivity;
    apply string_of_uint_chars || (cbn [allNumberChars]; apply string_of_uint_chars).
Qed.

Lemma Number_toString_head n :
  exists c r, Js.Number_toString n = String c r /\ isNumberChar c = true.
Proof.
  pose proof (Number_toString_chars n) as H.
  assert (Js.Number_toString n <> EmptyString) as Hne.
  { unfold Js.Number_toString. destruct n as [|p|p]; cbn; [discriminate| |discriminate].
    pose proof (DecimalPos.Unsigned.to_uint_nonnil p) as Hp.
    unfold NilZero.string_of_uint. destruct (Pos.to_uint p); discriminate || congruence. }
  destruct (Js.Number_toString n) as [|c r]; [congruence|].
  exists c, r. split; [reflexivity|]. cbn [allNumberChars] in H.
  apply andb_prop in H. tauto.
Qed.

Lemma spanNumber_append tok rest :
  allNumberChars tok = true -> endsNumber rest ->
  spanNumber (tok ++ rest) = (tok, rest).
Proof.
  intros Htok Hrest. induction tok as [|c tok IH]; cbn [String.append spanNumber].
  - destruct rest as [|c r]; [reflexivity|].
    unfold endsNumber in Hrest. cbn [spanNumber]. rewrite Hrest. reflexivity.
  - cbn [allNumberChars] in Htok. apply andb_prop in Htok as [Hc Htok].
    rewrite Hc, (IH Htok). reflexivity.
Qed.

Lemma int_of_string_Number_toString n :
  NilZero.int_of_string (Js.Number_toString n) = Some (Z.to_int n).
Proof.
  unfold Js.Number_toString. apply NilZero.isi.
  - destruct n as [|p|p]; cbn; try discriminate.
    intros [= H]. exact (DecimalPos.Unsigned.to_uint_nonnil p H).
  - destruct n as [|p|p]; cbn; try discriminate.
    intros [= H]. exact (DecimalPos.Unsigned.to_uint_nonnil p H).
Qed.

Lemma parseNumber_Number_toString n rest :
  endsNumber rest -> parseNumber (Js.Number_toString n ++ rest) = Some (n, rest).
Proof.
  intros Hrest. unfold parseNumber.
  rewrite (spanNumber_append _ _ (Number_toString_chars n) Hrest).
  rewrite int_of_string_Number_toString, DecimalZ.of_to, String.eqb_refl. reflexivity.
Qed.

Lemma numberChar_dispatch c :
  isNumberChar c = true ->
  Ascii.eqb c "n" = false /\ Ascii.eqb c "t" = false /\ Ascii.eqb c "f" = false /\
  Ascii.eqb c dquote = false /\ Ascii.eqb c "[" = false /\ Ascii.eqb c "{" = false /\
  Ascii.eqb c "]" = false.
Proof.
  destruct c as [[] [] [] [] [] [] [] []]; vm_compute; intros H;
    try discriminate H; repeat split.
Qed.

Lemma parseValue_number fuel n rest :
  endsNumber rest ->
  parseValue (S fuel) (Js.Number_toString n ++ rest) = Some (JNum n, rest).
Proof.
  intros Hrest.
  pose proof (parseNumber_Number_toString n rest Hrest) as Hp.
  destruct (Number_toString_head n) as (c & r & E & Hc).
  rewrite E in Hp |- *. cbn [String.append] in Hp |- *. cbn [parseValue].
  destruct (numberChar_dispatch c Hc) as (-> & -> & -> & -> & -> & -> & _).
  rewrite Hc, Hp. reflexivity.
Qed.

(** No value's text starts with a closing bracket. *)
Lemma stringify_head v rest :
  exists c r, JSON_stringify v ++ rest = String c r /\ Ascii.eqb c "]" = false.
Proof.
  destruct v as [|[]|n|s|items|fields];
    try (eexists _, _; split; [reflexivity|reflexivity]).
  destruct (Number_toString_head n) as (c & r & E & Hc).
  exists c, (r ++ rest). split.
  - change (JSON_stringify (JNum n)) with (Js.Number_toString n). rewrite E. reflexivity.
  - apply numberChar_dispatch, Hc.
Qed.

Lemma elementsText_cons x y l :
  elementsText (x :: y :: l) = JSON_stringify x ++ "," ++ elementsText (y :: l).
Proof. reflexivity. Qed.

Lemma membersText_cons k x kv l :
  membersText ((k, x) :: kv :: l)
  = quote k ++ ":" ++ JSON_stringify x ++ "," ++ membersText (kv :: l).
Proof. reflexivity. Qed.

Lemma fuelOfElements_cons x l :
  fuelOfElements (x :: l) = S (fuelOf x + fuelOfElements l).
Proof. reflexivity. Qed.

Lemma fuelOfMembers_cons k x l :
  fuelOfMembers ((k, x) :: l) = S (fuelOf x + fuelOfMembers l).
Proof. reflexivity. Qed.

Lemma fuelOf_JArr l : fuelOf (JArr l) = S (fuelOfElements l).
Proof. reflexivity. Qed.

Lemma fuelOf_JObj l : fuelOf (JObj l) = S (fuelOfMembers l).
Proof. reflexivity. Qed.

Lemma parseElements_step fuel x rest0 :
  parseValue fuel (JSON_stringify x ++ rest0) = Some (x, rest0) ->
  parseElements (S fuel) (JSON_stringify x ++ rest0)
  = match rest0 with
    | String c r =>
        if Ascii.eqb c "]" then Some ([x], r)
        else if Ascii.eqb c "," then
          match parseElements fuel r with
          | Some (vs, r') => Some (x :: vs, r')
          | None => None
          end
        else None
    | EmptyString => None
    end.
Proof.
  intros H. cbn [parseElements]. rewrite H. reflexivity.
Qed.

Lemma parseMembers_step fuel k x rest0 :
  parseValue fuel (JSON_stringify x ++ rest0) = Some (x, rest0) ->
  parseMembers (S fuel) (quote k ++ ":" ++ JSON_stringify x ++ rest0)
  = match rest0 with
    | String c r =>
        if Ascii.eqb c "}" then Some ([(k, x)], r)
        else if Ascii.eqb c "," then
          match parseMembers fuel r with
          | Some (kvs, r') => Some ((k, x) :: kvs, r')
          | None => None
          end
        else None
    | EmptyString => None
    end.
Proof.
  intros H.
  destruct (parseChars_quote k (":" ++ JSON_stringify x ++ rest0)) as (r & E & Hr).
  rewrite E. cbn [parseMembers]. change (Ascii.eqb dquote dquote) with true. cbn iota.
  rewrite Hr. cbn [String.append]. change (Ascii.eqb ":" ":") with true. cbn iota.
  rewrite H. reflexivity.
Qed.

Lemma parse_stringify_fuel fuel :
  (forall v rest, (fuelOf v <= fuel)%nat -> endsNumber rest ->
     parseValue fuel (JSON_stringify v ++ rest) = Some (v, rest)) /\
  (forall l rest, l <> [] -> (fuelOfElements l <= fuel)%nat ->
     parseElements fuel (elementsText l ++ rest) = Some (l, rest)) /\
  (forall l rest, l <> [] -> (fuelOfMembers l <= fuel)%nat ->
     parseMembers fuel (membersText l ++ rest) = Some (l, rest)).
Proof.
  induction fuel as [|fuel (IHv & IHe & IHm)].
  - split; [|split].
    + intros v rest H. destruct v; cbn in H; lia.
    + intros [|x l] rest Hne H; [congruence|]. rewrite fuelOfElements_cons in H. lia.
    + intros [|[k x] l] rest Hne H; [congruence|]. rewrite fuelOfMembers_cons in H. lia.
  - split; [|split].
    + intros v rest Hf Hrest. destruct v as [|[]|n|s|items|fields].
      * reflexivity.
      * reflexivity.
      * reflexivity.
      * apply parseValue_number, Hrest.
      * destruct (parseChars_quote s rest) as (r & E & Hr).
        change (JSON_stringify (JStr s)) with (quote s). rewrite E.
        cbn [parseValue]. change (Ascii.eqb dquote "n") with false.
        change (Ascii.eqb dquote "t") with false.
        change (Ascii.eqb dquote "f") with false.
        change (Ascii.eqb dquote dquote) with true. cbn iota.
        rewrite Hr. reflexivity.
      * rewrite fuelOf_JArr in Hf.
        change (JSON_stringify (JArr items)) with ("[" ++ elementsText items).
        cbn [String.append parseValue].
        change (Ascii.eqb "[" "n") with false. change (Ascii.eqb "[" "t") with false.
        change (Ascii.eqb "[" "f") with false. change (Ascii.eqb "[" dquote) with false.
        change (Ascii.eqb "[" "[") with true. cbn iota.
        destruct items as [|x items]; [reflexivity|].
        rewrite (IHe (x :: items) rest ltac:(discriminate) ltac:(lia)).
        assert (exists c r, elementsText (x :: items) ++ rest = String c r
                            /\ Ascii.eqb c "]" = false) as (c & r & E & Hc).
        { destruct items as [|y items].
          - change (elementsText [x]) with (JSON_stringify x ++ "]").
            rewrite append_assoc. apply stringify_head.
          - rewrite elementsText_cons, append_assoc. apply stringify_head. }
        rewrite E, Hc. reflexivity.
      * rewrite fuelOf_JObj in Hf.
        change (JSON_stringify (JObj fields)) with ("{" ++ membersText fields).
        cbn [String.append parseValue].
        change (Ascii.eqb "{" "n") with false. change (Ascii.eqb "{" "t") with false.
        change (Ascii.eqb "{" "f") with false. change (Ascii.eqb "{" dquote) with false.
        change (Ascii.eqb "{" "[") with false. change (Ascii.eqb "{" "{") with true.
        cbn iota.
        destruct fields as [|[k x] fields]; [reflexivity|].
        rewrite (IHm ((k, x) :: fields) rest ltac:(discriminate) ltac:(lia)).
        assert (exists r, membersText ((k, x) :: fields) ++ rest = String dquote r)
          as (r & E).
        { destruct fields as [|kv fields]; eexists; reflexivity. }
        rewrite E. reflexivity.
    + intros [|x l] rest Hne Hf; [congruence|]. rewrite fuelOfElements_cons in Hf.
      destruct l as [|y l].
      * change (elementsText [x]) with (JSON_stringify x ++ "]").
        rewrite append_assoc, parseElements_step.
        -- reflexivity.
        -- apply IHv; [lia|reflexivity].
      * rewrite elementsText_cons, !append_assoc, parseElements_step.
        -- cbn [String.append]. change (Ascii.eqb "," "]") with false.
           change (Ascii.eqb "," ",") with true. cbn iota.
           rewrite (IHe (y :: l) rest ltac:(discriminate) ltac:(lia)). reflexivity.
        -- apply IHv; [lia|reflexivity].
    + intros [|[k x] l] rest Hne Hf; [congruence|]. rewrite fuelOfMembers_cons in Hf.
      destruct l as [|kv l].
      * change (membersText [(k, x)]) with (quote k ++ ":" ++ JSON_stringify x ++ "}").
        rewrite !append_assoc, parseMembers_step.
        -- reflexivity.
        -- apply IHv; [lia|reflexivity].
      * rewrite membersText_cons, !append_assoc, parseMembers_step.
        -- cbn [String.append]. change (Ascii.eqb "," "}") with false.
           change (Ascii.eqb "," ",") with true. cbn iota.
           rewrite (IHm (kv :: l) rest ltac:(discriminate) ltac:(lia)). reflexivity.
        -- apply IHv; [lia|reflexivity].
Qed.

Lemma fuelOf_length_fuel fuel :
  (forall v, (fuelOf v <= fuel)%nat -> (fuelOf v <= String.length (JSON_stringify v))%nat) /\
  (forall l, (fuelOfElements l <= fuel)%nat ->
     (fuelOfElements l <= String.length (elementsText l))%nat) /\
  (forall l, (fuelOfMembers l <= fuel)%nat ->
     (fuelOfMembers l <= String.length (membersText l))%nat).
Proof.
  induction fuel as [|fuel (IHv & IHe & IHm)].
  - split; [|split].
    + intros v H. destruct v; cbn in H; lia.
    + intros [|x l] H; [cbn; lia|]. rewrite fuelOfElements_cons in H. lia.
    + intros [|[k x] l] H; [cbn; lia|]. rewrite fuelOfMembers_cons in H. lia.
  - split; [|split].
    + intros v Hf. destruct v as [|[]|n|s|items|fields]; try (cbn; lia).
      * destruct (Number_toString_head n) as (c & r & E & _).
        change (JSON_stringify (JNum n)) with (Js.Number_toString n).
        rewrite E. cbn. lia.
      * rewrite fuelOf_JArr in Hf |- *.
        change (JSON_stringify (JArr items)) with ("[" ++ elementsText items).
        rewrite append_length. cbn [String.length].
        specialize (IHe items ltac:(lia)). lia.
      * rewrite fuelOf_JObj in Hf |- *.
        change (JSON_stringify (JObj fields)) with ("{" ++ membersText fields).
        rewrite append_length. cbn [String.length].
        specialize (IHm fields ltac:(lia)). lia.
    + intros [|x l] Hf; [cbn; lia|]. rewrite fuelOfElements_cons in Hf |- *.
      specialize (IHv x ltac:(lia)). specialize (IHe l ltac:(lia)).
      destruct l as [|y l].
      * change (elementsText [x]) with (JSON_stringify x ++ "]").
        rewrite append_length. change (fuelOfElements []) with 0%nat.
        cbn [String.length]. lia.
      * rewrite elementsText_cons, !append_length. cbn [String.length]. lia.
    + intros [|[k x] l] Hf; [cbn; lia|]. rewrite fuelOfMembers_cons in Hf |- *.
      specialize (IHv x ltac:(lia)). specialize (IHm l ltac:(lia)).
      destruct l as [|kv l].
      * change (membersText [(k, x)]) with (quote k ++ ":" ++ JSON_stringify x ++ "}").
        rewrite !append_length. change (fuelOfMembers []) with 0%nat.
        cbn [String.length]. lia.
      * rewrite membersText_cons, !append_length. cbn [String.length]. lia.
Qed.

Lemma append_nil_r (s : string) : s ++ "" = s.
Proof. induction s as [|c s IH]; cbn; [reflexivity|]. f_equal. exact IH. Qed.

(** What is written is read back. *)
Lemma JSON_parse_stringify v : JSON_parse (JSON_stringify v) = Some v.
Proof.
  unfold JSON_parse.
  pose proof (proj1 (fuelOf_length_fuel (fuelOf v)) v (le_n _)) as Hlen.
  pose proof (proj1 (parse_stringify_fuel (S (String.length (JSON_stringify v))))
                v "" ltac:(lia) I) as H.
  rewrite append_nil_r in H. rewrite H. reflexivity.
Qed.

Lemma JSON_stringify_nonempty v : JSON_stringify v <> "".
Proof.
  destruct (stringify_head v "") as (c & r & E & _).
  rewrite append_nil_r in E. rewrite E. discriminate.
Qed.

End JsonFacts.

Section StorageFacts.
Import Json Storage.
Local Open Scope string_scope.
Variable accepts : gmap string string -> bool.

Lemma isEmptyState_iff v : isEmptyState v = true <-> v = JNull \/ v = JArr [].
Proof.
  split.
  - destruct v as [| | | |[|]|]; try discriminate; auto.
  - intros [-> | ->]; reflexivity.
Qed.

Lemma effect_writes key v st :
  isEmptyState v = false ->
  accepts (<[key := JSON_stringify v]> st) = true ->
  useLocalStorageState_effect accepts key v st = <[key := JSON_stringify v]> st.
Proof.
  intros He Hacc. unfold useLocalStorageState_effect, setItem.
  rewrite He. cbv zeta. rewrite Hacc. reflexivity.
Qed.

Lemma effect_removes key v st :
  isEmptyState v = true -> useLocalStorageState_effect accepts key v st = delete key st.
Proof.
  intros He. unfold useLocalStorageState_effect, removeItem. rewrite He. reflexivity.
Qed.

Lemma init_reads key defaultValue v (st : gmap string string) :
  useLocalStorageState_init key defaultValue (<[key := JSON_stringify v]> st) = v.
Proof.
  unfold useLocalStorageState_init, getItem. rewrite lookup_insert_eq.
  destruct (String.eqb_spec (JSON_stringify v) "") as [E|_].
  - destruct (JSON_stringify_nonempty v E).
  - rewrite JSON_parse_stringify. reflexivity.
Qed.

Lemma init_absent key defaultValue (st : gmap string string) :
  st !! key = None -> useLocalStorageState_init key defaultValue st = defaultValue.
Proof.
  intros H. unfold useLocalStorageState_init, getItem. rewrite H. reflexivity.
Qed.

(** C6. A value that the effect has written is the value the hook starts
    from after a reload; for [null] and for the empty array the effect
    removes the key instead, and the hook then starts from the caller's
    default.  So whenever the default is that same empty value, as it is for
    the cells of [App], what is persisted is what is loaded. *)
Theorem store_round_trip (st : gmap string string) (key : string)
    (defaultValue v : JsValue) :
  let st' := useLocalStorageState_effect accepts key v st in
  (v <> JNull -> v <> JArr [] ->
   accepts (<[key := JSON_stringify v]> st) = true ->
   st' !! key = Some (JSON_stringify v) /\
   useLocalStorageState_init key defaultValue st' = v) /\
  (v = JNull \/ v = JArr [] ->
   st' !! key = None /\
   useLocalStorageState_init key defaultValue st' = defaultValue) /\
  (accepts (<[key := JSON_stringify v]> st) = true ->
   (v = JNull \/ v = JArr [] -> defaultValue = v) ->
   useLocalStorageState_init key defaultValue st' = v).
Proof.
  cbv zeta. split; [|split].
  - intros Hn Ha Hacc.
    rewrite effect_writes, init_reads, lookup_insert_eq; [split; reflexivity| |exact Hacc].
    destruct (isEmptyState v) eqn:E; [|reflexivity].
    apply isEmptyState_iff in E as [E|E]; contradiction.
  - intros He. apply isEmptyState_iff in He.
    rewrite effect_removes by exact He.
    split; [apply lookup_delete_eq|apply init_absent, lookup_delete_eq].
  - intros Hacc Hd. destruct (isEmptyState v) eqn:E.
    + rewrite effect_removes, init_absent; [|apply lookup_delete_eq|exact E].
      apply Hd, isEmptyState_iff, E.
    + rewrite effect_writes, init_reads; [reflexivity|exact E|exact Hacc].
Qed.

End StorageFacts.

Section StorageSamples.
Import Json Storage.
Local Open Scope string_scope.

Lemma store_round_trip_witness :
  let entry := JObj [("id", JStr "1700000000500"); ("data", JStr "iVBORw0KGgo");
                     ("mimeType", JStr "image/png"); ("aspectRatio", JStr "portrait");
                     ("isFavorite", JBool false)] in
  let st : gmap string string := {[ "vto-customPrompt" := "in the rain" ]} in
  let saved := useLocalStorageState_effect (fun _ => true) "vto-history" (JArr [entry]) st in
  let cleared := useLocalStorageState_effect (fun _ => true) "vto-history" (JArr []) saved in
  useLocalStorageState_init "vto-history" (JArr []) saved = JArr [entry] /\
  cleared !! "vto-history" = None /\
  useLocalStorageState_init "vto-history" (JArr []) cleared = JArr [].
Proof.
  intros entry st saved cleared.
  destruct (store_round_trip (fun _ => true) st "vto-history" (JArr []) (JArr [entry]))
    as [H1 _].
  destruct (store_round_trip (fun _ => true) saved "vto-history" (JArr []) (JArr []))
    as [_ [H2 _]].
  split.
  - apply H1; [discriminate|discriminate|reflexivity].
  - apply H2. right. reflexivity.
Defined.

End StorageSamples.

(* ===================================================================== *)
(** * Further properties of the code *)
(* ===================================================================== *)

Section GeometryFacts.
Import Uploader UploaderView.

Lemma constrain_range (w h : Z) :
  0 <= w -> 0 <= h ->
  0 <= fst (constrain w h) <= 1024 /\ 0 <= snd (constrain w h) <= 1024.
Proof.
  intros Hw Hh. unfold constrain, MAX_DIMENSION.
  destruct (Z.gtb_spec w 1024) as [Hw1|Hw1];
    destruct (Z.gtb_spec h 1024) as [Hh1|Hh1];
    destruct (Z.gtb_spec w h) as [Hwh|Hwh]; cbn [orb fst snd]; try lia;
    try (pose proof (Math_round_div_le h w 1024 ltac:(lia) ltac:(lia) ltac:(lia) ltac:(lia));
         pose proof (Math_round_div_nonneg (h * 1024) w ltac:(lia) ltac:(lia)); lia);
    try (pose proof (Math_round_div_le w h 1024 ltac:(lia) ltac:(lia) ltac:(lia) ltac:(lia));
         pose proof (Math_round_div_nonneg (w * 1024) h ltac:(lia) ltac:(lia)); lia).
Qed.

Lemma constrain_small (w h : Z) : w <= 1024 -> h <= 1024 -> constrain w h = (w, h).
Proof.
  intros Hw Hh. unfold constrain, MAX_DIMENSION.
  destruct (Z.gtb_spec w 1024); [lia|]. destruct (Z.gtb_spec h 1024); [lia|]. reflexivity.
Qed.

(** X1. Constraining is idempotent: an image that has been through the
    pipeline is not resized again. *)
Theorem constrain_idempotent (w h : Z) :
  0 <= w -> 0 <= h ->
  constrain (fst (constrain w h)) (snd (constrain w h)) = constrain w h.
Proof.
  intros Hw Hh. destruct (constrain_range w h Hw Hh) as [[_ H1] [_ H2]].
  rewrite (constrain_small _ _ H1 H2). destruct (constrain w h); reflexivity.
Qed.

Lemma constrain_idempotent_witness :
  constrain (fst (constrain 3000 2000)) (snd (constrain 3000 2000)) = (1024, 683).
Proof.
  rewrite (constrain_idempotent 3000 2000); [reflexivity|lia|lia].
Defined.

Lemma Math_round_div_same (a m : Z) : 0 < a -> Math_round_div (a * m) a = m.
Proof.
  intros Ha. pose proof (Math_round_div_spec (a * m) a Ha) as [H1 H2]. nia.
Qed.

(** X2. Scaling keeps the orientation: the longer side of the input is the
    longer side of the output, and a square stays square. *)
Theorem constrain_keeps_orientation (w h : Z) :
  0 <= w -> 0 <= h ->
  (h <= w -> snd (constrain w h) <= fst (constrain w h)) /\
  (w <= h -> fst (constrain w h) <= snd (constrain w h)).
Proof.
  intros Hw Hh. unfold constrain, MAX_DIMENSION.
  destruct (Z.gtb_spec w 1024) as [Hw1|Hw1];
    destruct (Z.gtb_spec h 1024) as [Hh1|Hh1];
    destruct (Z.gtb_spec w h) as [Hwh|Hwh]; cbn [orb fst snd]; try lia;
    try (pose proof (Math_round_div_le h w 1024 ltac:(lia) ltac:(lia) ltac:(lia) ltac:(lia));
         lia);
    (pose proof (Math_round_div_le w h 1024 ltac:(lia) ltac:(lia) ltac:(lia) ltac:(lia));
     split; [|lia]; intros Hhw; assert (w = h) as -> by lia;
     rewrite Math_round_div_same; lia).
Qed.

Lemma constrain_keeps_orientation_witness :
  snd (constrain 4000 3000) <= fst (constrain 4000 3000) /\
  fst (constrain 2000 2000) <= snd (constrain 2000 2000).
Proof.
  split.
  - apply (proj1 (constrain_keeps_orientation 4000 3000 ltac:(lia) ltac:(lia))). lia.
  - apply (proj2 (constrain_keeps_orientation 2000 2000 ltac:(lia) ltac:(lia))). lia.
Defined.

(** X3. A side of the canvas comes out as zero exactly when the image is more
    than 2048 times longer than wide, or wider than long. *)
Theorem constrain_zero_side (w h : Z) :
  1 <= w -> 1 <= h ->
  (fst (constrain w h) = 0 <-> 2048 * w < h) /\
  (snd (constrain w h) = 0 <-> 2048 * h < w).
Proof.
  intros Hw Hh. unfold constrain, MAX_DIMENSION.
  destruct (Z.gtb_spec w 1024) as [Hw1|Hw1];
    destruct (Z.gtb_spec h 1024) as [Hh1|Hh1];
    destruct (Z.gtb_spec w h) as [Hwh|Hwh]; cbn [orb fst snd]; try lia;
    try (pose proof (Math_round_div_spec (h * 1024) w ltac:(lia)) as [H1 H2];
         pose proof (Math_round_div_nonneg (h * 1024) w ltac:(lia) ltac:(lia));
         split; split; intros Hz; nia);
    (pose proof (Math_round_div_spec (w * 1024) h ltac:(lia)) as [H1 H2];
     pose proof (Math_round_div_nonneg (w * 1024) h ltac:(lia) ltac:(lia));
     split; split; intros Hz; nia).
Qed.

Lemma constrain_zero_side_witness :
  snd (constrain 3000 1) = 0 /\ fst (constrain 1 2048) <> 0.
Proof.
  destruct (constrain_zero_side 3000 1 ltac:(lia) ltac:(lia)) as [_ H1].
  destruct (constrain_zero_side 1 2048 ltac:(lia) ltac:(lia)) as [H2 _].
  split; [apply H1; lia|]. intros H. apply H2 in H. lia.
Defined.

Lemma aspect_eqb_eq a b : aspect_eqb a b = true -> a = b.
Proof. destruct a, b; cbn; congruence. Qed.

Lemma agreeOn_sound (zs : list Z) :
  agreeOn zs = true ->
  forall w h, In w zs -> In h zs -> aspectOf w h = aspectExact w h.
Proof.
  unfold agreeOn. cbv zeta. intros H w h Hw Hh.
  rewrite forallb_forall in H.
  assert (In (w, toNumber w) (map (fun z => (z, toNumber z)) zs)) as Hw'
    by (apply in_map_iff; exists w; split; [reflexivity|exact Hw]).
  assert (In (h, toNumber h) (map (fun z => (z, toNumber z)) zs)) as Hh'
    by (apply in_map_iff; exists h; split; [reflexivity|exact Hh]).
  specialize (H _ Hw'). rewrite forallb_forall in H.
  apply aspect_eqb_eq. exact (H _ Hh').
Qed.

(** The exhaustive check over the 1025 x 1025 canvas sizes. *)
Lemma agreeOn_canvasSizes : agreeOn canvasSizes = true.
Proof. vm_compute. reflexivity. Qed.

Lemma in_canvasSizes (z : Z) : 0 <= z <= 1024 -> In z canvasSizes.
Proof.
  intros Hz. unfold canvasSizes. apply in_map_iff. exists (Z.to_nat z). split; [lia|].
  apply in_seq. lia.
Qed.

Lemma aspectOf_exact (w h : Z) :
  0 <= w <= 1024 -> 0 <= h <= 1024 -> aspectOf w h = aspectExact w h.
Proof.
  intros Hw Hh.
  apply (agreeOn_sound canvasSizes agreeOn_canvasSizes);
    apply in_canvasSizes; assumption.
Qed.

(** X4. On every canvas the pipeline can produce, the binary64 comparisons
    [ratio > 1.1] and [ratio < 0.9] decide exactly [10 w > 11 h] and
    [10 w < 9 h]; an empty canvas side gives landscape (height 0), portrait
    (width 0) or square (both). *)
Theorem aspect_of_canvas_exact (w h : Z) :
  0 <= w -> 0 <= h ->
  let w' := fst (constrain w h) in
  let h' := snd (constrain w h) in
  aspectOf w' h'
  = if 11 * h' <? 10 * w' then landscape
    else if 10 * w' <? 9 * h' then portrait
    else square.
Proof.
  intros Hw Hh. cbv zeta.
  destruct (constrain_range w h Hw Hh) as [H1 H2].
  exact (aspectOf_exact _ _ H1 H2).
Qed.

Lemma aspect_of_canvas_exact_witness :
  aspectOf 1024 931 = square /\ aspectOf 1024 930 = landscape /\ aspectOf 1024 0 = landscape.
Proof.
  pose proof (aspect_of_canvas_exact 1024 931 ltac:(lia) ltac:(lia)) as H1.
  pose proof (aspect_of_canvas_exact 1024 930 ltac:(lia) ltac:(lia)) as H2.
  pose proof (aspect_of_canvas_exact 3000 1 ltac:(lia) ltac:(lia)) as H3.
  split; [exact H1|]. split; [exact H2|exact H3].
Defined.

End GeometryFacts.

Section UploadFacts.
Import Uploader UploaderView App AppView.
Local Open Scope string_scope.

Lemma resize_result (r : option Raster) (img : ImageFile) :
  resizeAndProcessImage r = inl img ->
  mimeType img = "image/jpeg" /\ isFavorite img = None.
Proof.
  unfold resizeAndProcessImage. destruct r as [ra|]; [|discriminate].
  destruct (constrain (width ra) (height ra)) as [w h].
  destruct (has2dContext ra); [|discriminate].
  intros [= <-]. split; reflexivity.
Qed.

(** X5. Choosing a file for the model slot: a file that cannot be ingested
    leaves the session as it is; an ingested one replaces the slot's
    content as a JPEG without favorite flag, under the id the slot already
    had, or under a timestamp if the slot was empty.  The UUID that the
    ingestion assigned is not kept, and no other cell changes. *)
Theorem model_file_change (f : File) (rest : list File) (now : Z) (s : AppState) :
  modelFileChange [] now s = s /\
  match resizeAndProcessImage (decoded f) with
  | inr _ => modelFileChange (f :: rest) now s = s
  | inl img =>
      modelFileChange (f :: rest) now s
      = setModelImage
          (Some {| id := match modelImage s with
                         | Some prev =>
                             if String.eqb (id prev) "" then Js.Number_toString now
                             else id prev
                         | None => Js.Number_toString now
                         end;
                   data := data img; mimeType := "image/jpeg";
                   aspectRatio := aspectRatio img; isFavorite := None |}) s
  end.
Proof.
  split; [reflexivity|].
  unfold modelFileChange, handleFileChange, processFile.
  destruct (resizeAndProcessImage (decoded f)) as [img|e] eqn:E; [|reflexivity].
  destruct (resize_result _ _ E) as [Hm Hf].
  unfold handleModelImageUpload, handleImageUpload. rewrite Hm, Hf.
  destruct (modelImage s) as [prev|]; reflexivity.
Qed.

Lemma startsWith_iff (p t : string) :
  JsString.startsWith p t = true <-> exists rest, t = p ++ rest.
Proof.
  unfold JsString.startsWith. revert t.
  induction p as [|c p IH]; intros t.
  - split; [intros _; exists t; reflexivity|intros _; destruct t; reflexivity].
  - destruct t as [|d t]; [split; [discriminate|intros [rest H]; discriminate H]|].
    cbn. destruct (Ascii.ascii_dec c d) as [->|Hne].
    + rewrite IH. split; intros [rest H]; exists rest; [rewrite H; reflexivity|].
      injection H as H. exact H.
    + split; [discriminate|]. intros [rest H]. injection H as H1 H2. congruence.
Qed.

(** X6. Dropping files on the model slot: only the first file counts; it is
    ingested exactly when its MIME type begins with [image/], and then as if
    it had been chosen in the file dialog; any other drop changes nothing. *)
Theorem model_drop (f : File) (rest : list File) (now : Z) (s : AppState) :
  modelDrop [] now s = s /\
  ((exists sub, file_type f = "image/" ++ sub) ->
   modelDrop (f :: rest) now s = modelFileChange [f] now s) /\
  ((forall sub, file_type f <> "image/" ++ sub) ->
   modelDrop (f :: rest) now s = s).
Proof.
  split; [reflexivity|]. unfold modelDrop, handleDrop. split.
  - intros H. apply startsWith_iff in H. rewrite H. reflexivity.
  - intros H. destruct (JsString.startsWith "image/" (file_type f)) eqn:E; [|reflexivity].
    apply startsWith_iff in E as [sub E]. destruct (H sub E).
Qed.

Lemma model_drop_witness :
  let pdf := {| file_type := "application/pdf"; decoded := None |} in
  let png := {| file_type := "image/png"; decoded := Some Samples.photo |} in
  modelDrop [pdf; png] 1700000000001 initial = initial /\
  modelImage (modelDrop [png; pdf] 1700000000001 initial)
  = Some {| id := "1700000000001"; data := "/9j/4AAQ"; mimeType := "image/jpeg";
            aspectRatio := landscape; isFavorite := None |}.
Proof.
  intros pdf png. split.
  - apply (proj2 (proj2 (model_drop pdf [png] 1700000000001 initial))).
    intros sub H. discriminate H.
  - rewrite (proj1 (proj2 (model_drop png [pdf] 1700000000001 initial))).
    + reflexivity.
    + exists "png". reflexivity.
Defined.

End UploadFacts.

Section SessionFacts.
Import Service App AppView HistoryView.
Local Open Scope string_scope.

(** X7. A generation attempt with an empty slot does not reach the service:
    whatever the remote call would answer, the only change is the error
    message; the displayed result, the history and the loading flag stay,
    and the generate button is disabled in that state. *)
Theorem generate_needs_both_slots
    (generateContent generateContent' : Request -> GenerateContentResponse + Thrown)
    (now : Z) (s : AppState) :
  modelImage s = None \/ garmentImage s = None ->
  handleGenerate generateContent now s
  = setError (Some "Please upload both a person and a garment image.") s /\
  handleGenerate generateContent now s = handleGenerate generateContent' now s /\
  canGenerate s = false.
Proof.
  unfold handleGenerate, canGenerate.
  intros [H|H]; rewrite H; destruct (modelImage s); repeat split; reflexivity.
Qed.

Lemma generate_needs_both_slots_witness :
  let s := setGarmentImage None Samples.session in
  generatedImage (handleGenerate Samples.answering 1700000000500 s) = Some Samples.earlier /\
  error (handleGenerate Samples.answering 1700000000500 s)
  = Some "Please upload both a person and a garment image.".
Proof.
  intros s.
  destruct (generate_needs_both_slots Samples.answering Samples.refusing
              1700000000500 s (or_intror eq_refl)) as [H _].
  rewrite H. split; reflexivity.
Defined.



(** X9. Clear All brings any session back to the state of a first visit,
    so nothing of it survives a reload either; Clear (history) empties the
    history and the display and leaves the slots, the prompt, the error and
    the loading flag alone. *)
Theorem clear_resets (s : AppState) :
  handleClear s = initial /\
  reload (handleClear s) = initial /\
  handleClearHistory s
  = setGeneratedImage None (setHistory [] s) /\
  (modelImage (handleClearHistory s) = modelImage s /\
   garmentImage (handleClearHistory s) = garmentImage s /\
   customPrompt (handleClearHistory s) = customPrompt s /\
   error (handleClearHistory s) = error s /\
   isLoading (handleClearHistory s) = isLoading s /\
   history (handleClearHistory s) = [] /\
   generatedImage (handleClearHistory s) = None /\
   highlighted (handleClearHistory s) = []).
Proof. repeat split. Qed.

Lemma toggleIn_ids i h : map id (toggleIn i h) = map id h.
Proof.
  unfold toggleIn. rewrite map_map. apply map_ext.
  intros img. destruct (String.eqb (id img) i); reflexivity.
Qed.

Lemma Number_toString_nonempty n : Js.Number_toString n <> "".
Proof.
  destruct (Number_toString_head n) as (c & r & E & _). rewrite E. discriminate.
Qed.

Lemma handleImageUpload_id img now prev im :
  handleImageUpload img now prev = Some im -> id im <> "".
Proof.
  unfold handleImageUpload. intros [= <-]. cbn.
  destruct (String.eqb_spec (match prev with Some p => id p | None => "" end) "") as [E|E];
    [apply Number_toString_nonempty|exact E].
Qed.

(** The slots of a session hold images with a non-empty id. *)
Lemma reachable_slot_ids s :
  reachable s ->
  (forall im, modelImage s = Some im -> id im <> "") /\
  (forall im, garmentImage s = Some im -> id im <> "").
Proof.
  induction 1 as [|s e Hs [IHm IHg] He]; [split; intros im H; discriminate H|].
  destruct e; cbn.
  - destruct (modelImage s) eqn:Em, (garmentImage s) eqn:Eg; cbn;
      rewrite ?Em, ?Eg; split; assumption.
  - destruct outcome; cbn; split; assumption.
  - split; assumption.
  - split; intros im H; discriminate H.
  - unfold handleToggleFavorite. destruct (generatedImage s) as [g|]; cbn;
      [destruct (String.eqb (id g) i); cbn|]; split; assumption.
  - split; assumption.
  - split; [|exact IHg]. intros im H. exact (handleImageUpload_id _ _ _ _ H).
  - split; [exact IHm|]. intros im H. exact (handleImageUpload_id _ _ _ _ H).
  - split; [intros im H; discriminate H|exact IHg].
  - split; [exact IHm|intros im H; discriminate H].
  - split; assumption.
  - split; assumption.
  - split; assumption.
Qed.

(** X10. Overriding the aspect class of the model image, in any state a
    session can reach, changes the aspect class of the slot and nothing
    else: the slot keeps its id, data, media type and flag, and the last
    override is the one that counts. *)
Theorem model_aspect_override (r r' : AspectRatio) (now now' : Z) (s : AppState) :
  reachable s ->
  (modelImage s = None -> modelAspectRatioChange r now s = s) /\
  (forall im, modelImage s = Some im ->
     modelAspectRatioChange r now s
     = setModelImage (Some {| id := id im; data := data im; mimeType := mimeType im;
                              aspectRatio := r; isFavorite := isFavorite im |}) s /\
     modelAspectRatioChange r' now' (modelAspectRatioChange r now s)
     = modelAspectRatioChange r' now' s).
Proof.
  intros Hs. destruct (reachable_slot_ids s Hs) as [Hid _].
  unfold modelAspectRatioChange, UploaderView.handleAspectRatioChange.
  split; [intros ->; reflexivity|].
  intros im Him. specialize (Hid im Him). rewrite Him.
  assert (String.eqb (id im) "" = false) as Heq by (apply String.eqb_neq, Hid).
  unfold handleModelImageUpload, handleImageUpload. rewrite Him. cbn.
  rewrite !Heq. split; reflexivity.
Qed.

End SessionFacts.

Section InvariantFacts.
Import Service App AppView HistoryView Session.
Local Open Scope string_scope.

Lemma reachable_attainable s : reachable s -> attainable s.
Proof.
  induction 1 as [|s e Hs IH He]; [apply attainable_initial|].
  apply attainable_step; [exact IH|].
  destruct e; cbn in He |- *; try exact He.
  destruct outcome; [exact (proj1 He)|exact I].
Qed.

Lemma attainable_history_length s : attainable s -> (length (history s) <= 5)%nat.
Proof.
  induction 1 as [|s e Hs IH He]; [cbn; lia|].
  destruct e; cbn; try exact IH; try lia.
  - destruct (modelImage s), (garmentImage s); exact IH.
  - destruct outcome; cbn; [|exact IH]. rewrite length_take. lia.
  - rewrite history_toggle. unfold toggleIn. rewrite length_map. exact IH.
Qed.

Lemma attainable_history_numeric s :
  attainable s -> Forall (fun img => numericId img = true) (history s).
Proof.
  induction 1 as [|s e Hs IH He]; [constructor|].
  destruct e; cbn in He |- *; try exact IH.
  - destruct (modelImage s), (garmentImage s); exact IH.
  - destruct outcome as [r|err]; cbn; [|exact IH].
    constructor; [apply numericId_newImageOf, He|apply Forall_take, IH].
  - constructor.
  - constructor.
  - rewrite history_toggle. unfold toggleIn. apply Forall_fmap.
    eapply Forall_impl; [exact IH|]. intros img Himg. cbn.
    destruct (String.eqb (id img) i); exact Himg.
Qed.

Lemma attainable_result_in_history s :
  attainable s -> forall g, generatedImage s = Some g -> g ∈ history s.
Proof.
  induction 1 as [|s e Hs IH He]; [intros g H; discriminate H|].
  destruct e; cbn in He |- *; try exact IH; try (intros g H; discriminate H).
  - destruct (modelImage s), (garmentImage s); cbn; [|exact IH..].
    intros g H; discriminate H.
  - destruct outcome as [r|err]; cbn; [|exact IH].
    intros g [= <-]. left.
  - intros g. rewrite generated_toggle, history_toggle.
    destruct (generatedImage s) as [g0|]; [|discriminate].
    intros [= <-]. unfold toggleIn.
    apply (list_elem_of_fmap_2
             (fun img => if String.eqb (id img) i then flipFavorite img else img)).
    apply IH. reflexivity.
  - intros g [= <-]. exact He.
Qed.

Lemma clash_attainable : attainable clash.
Proof.
  unfold clash, sameMillisecond. cbn [fold_left].
  do 2 (apply attainable_step; [|cbn; lia]).
  do 7 (apply attainable_step; [|exact I]).
  apply attainable_initial.
Qed.

Lemma reachable_result_in_history s :
  reachable s -> forall g, generatedImage s = Some g -> g ∈ history s.
Proof.
  induction 1 as [|s e Hs IH He]; [intros g H; discriminate H|].
  destruct e; cbn in He |- *; try exact IH; try (intros g H; discriminate H).
  - destruct (modelImage s), (garmentImage s); cbn; [|exact IH..].
    intros g H; discriminate H.
  - destruct outcome as [r|err]; cbn; [|exact IH].
    intros g [= <-]. left.
  - intros g. rewrite generated_toggle, history_toggle.
    destruct (generatedImage s) as [g0|]; [|discriminate].
    intros [= <-]. unfold toggleIn.
    apply (list_elem_of_fmap_2
             (fun img => if String.eqb (id img) i then flipFavorite img else img)).
    apply IH. reflexivity.
  - intros g [= <-]. exact He.
Qed.

Lemma reachable_flags_defined s : reachable s -> flags_defined s.
Proof.
  intros Hs.
  assert (Forall (fun img => isFavorite img <> None) (history s)) as H.
  { induction Hs as [|s e Hs IH He]; [constructor|].
    destruct e; cbn; try exact IH; try constructor.
    - destruct (modelImage s), (garmentImage s); exact IH.
    - destruct outcome as [r|err]; cbn; [|exact IH].
      constructor; [discriminate|apply Forall_take, IH].
    - rewrite history_toggle. unfold toggleIn. apply Forall_fmap.
      eapply Forall_impl; [exact IH|]. intros img Himg. cbn.
      destruct (String.eqb (id img) i); [discriminate|exact Himg]. }
  split; [exact H|]. intros g Hg.
  apply (proj1 (Forall_forall _ _) H g), (reachable_result_in_history s Hs g Hg).
Qed.

Lemma walkthrough_reachable : reachable Walkthrough.final.
Proof.
  unfold Walkthrough.final, Walkthrough.events. cbn [fold_left].
  apply reachable_step.
  2: { cbn. apply list_elem_of_In. cbn. auto. }
  apply reachable_step; [|exact I].
  apply reachable_step.
  2: { cbn. split; [lia|].
       apply not_elem_of_cons. split; [discriminate|apply not_elem_of_nil]. }
  apply reachable_step; [|exact I].
  apply reachable_step.
  2: { cbn. split; [lia|apply not_elem_of_nil]. }
  do 3 (apply reachable_step; [|exact I]).
  apply reachable_initial.
Qed.

(** X11. In every state of a session, with nothing assumed about the clock
    but that it gives non-negative integers below 2^53, the history has at
    most five entries and each entry's id reads as an integer that binary64
    holds exactly (so the display order is the one described for numeric
    ids).  The ids need not be different: two results created in the same
    millisecond share their id. *)
Theorem session_history_bounded_numeric :
  (forall s, attainable s ->
     (length (history s) <= 5)%nat /\ forallb numericId (history s) = true) /\
  (attainable clash /\ ~ NoDup (map id (history clash))).
Proof.
  split.
  - intros s Hs. split; [exact (attainable_history_length s Hs)|].
    apply forallb_forall. intros img Himg. apply list_elem_of_In in Himg.
    exact (proj1 (Forall_forall _ _) (attainable_history_numeric s Hs) img Himg).
  - split; [exact clash_attainable|].
    intros H. apply NoDup_cons in H as [H _]. apply H. left.
Qed.

Lemma session_history_bounded_numeric_witness :
  (length (history Walkthrough.final) <= 5)%nat /\
  forallb numericId (history Walkthrough.final) = true.
Proof.
  apply (proj1 session_history_bounded_numeric Walkthrough.final).
  exact (reachable_attainable _ walkthrough_reachable).
Defined.

(** X12. In every state a session can reach, the displayed result, if there
    is one, is an entry of the history, and every entry as well as the
    displayed result carries a defined favorite flag. *)
Theorem session_result_is_history_entry (s : AppState) :
  reachable s ->
  (forall g, generatedImage s = Some g -> g ∈ history s) /\
  Forall (fun img => isFavorite img <> None) (history s) /\
  (forall g, generatedImage s = Some g -> isFavorite g <> None).
Proof.
  intros Hs. split; [exact (reachable_result_in_history s Hs)|].
  exact (reachable_flags_defined s Hs).
Qed.

Lemma session_result_is_history_entry_witness :
  flipFavorite (newImageOf Samples.answer 1700000000500) ∈ history Walkthrough.final.
Proof.
  apply (proj1 (session_result_is_history_entry Walkthrough.final walkthrough_reachable)).
  reflexivity.
Defined.

Lemma flipFavorite_involutive img :
  isFavorite img <> None -> flipFavorite (flipFavorite img) = img.
Proof.
  destruct img as [i d m a [[|]|]]; cbn; [reflexivity|reflexivity|congruence].
Qed.

Lemma toggleIn_involutive i h :
  Forall (fun img => isFavorite img <> None) h -> toggleIn i (toggleIn i h) = h.
Proof.
  unfold toggleIn. induction 1 as [|img h Himg Hh IH]; cbn; [reflexivity|].
  rewrite IH. f_equal.
  destruct (String.eqb (id img) i) eqn:E; cbn; rewrite E; [|reflexivity].
  apply flipFavorite_involutive, Himg.
Qed.

Lemma AppState_ext (s s' : AppState) :
  modelImage s = modelImage s' -> garmentImage s = garmentImage s' ->
  history s = history s' -> customPrompt s = customPrompt s' ->
  generatedImage s = generatedImage s' -> isLoading s = isLoading s' ->
  error s = error s' -> isAdvancedOpen s = isAdvancedOpen s' -> s = s'.
Proof. destruct s, s'; cbn; intros; subst; reflexivity. Qed.

Lemma toggle_other_cells i s :
  modelImage (handleToggleFavorite i s) = modelImage s /\
  garmentImage (handleToggleFavorite i s) = garmentImage s /\
  customPrompt (handleToggleFavorite i s) = customPrompt s /\
  isLoading (handleToggleFavorite i s) = isLoading s /\
  error (handleToggleFavorite i s) = error s /\
  isAdvancedOpen (handleToggleFavorite i s) = isAdvancedOpen s.
Proof.
  unfold handleToggleFavorite. destruct (generatedImage s) as [g|]; cbn;
    [destruct (String.eqb (id g) i); cbn|]; repeat split.
Qed.

(** X13. Clicking the same star twice undoes itself: in every state a
    session can reach, toggling a favorite twice gives back the very same
    state; and one toggle never changes which image is on display, nor the
    ids or the order of the history. *)
Theorem toggle_favorite_twice (i : string) (s : AppState) :
  reachable s ->
  handleFavoriteClick i (handleFavoriteClick i s) = s /\
  option_map id (generatedImage (handleFavoriteClick i s))
  = option_map id (generatedImage s) /\
  map id (history (handleFavoriteClick i s)) = map id (history s).
Proof.
  intros Hs. unfold handleFavoriteClick.
  destruct (reachable_flags_defined s Hs) as [Hh Hg].
  destruct (toggle_other_cells i s) as (H1 & H2 & H3 & H4 & H5 & H6).
  destruct (toggle_other_cells i (handleToggleFavorite i s))
    as (K1 & K2 & K3 & K4 & K5 & K6).
  split; [|split].
  - apply AppState_ext; try congruence.
    + rewrite !history_toggle. apply toggleIn_involutive, Hh.
    + rewrite !generated_toggle.
      destruct (generatedImage s) as [g|]; [|reflexivity].
      specialize (Hg g eq_refl). f_equal.
      destruct (String.eqb (id g) i) eqn:E; cbn; rewrite E; [|reflexivity].
      apply flipFavorite_involutive, Hg.
  - rewrite generated_toggle. destruct (generatedImage s) as [g|]; [|reflexivity].
    cbn. destruct (String.eqb (id g) i); reflexivity.
  - rewrite history_toggle. apply toggleIn_ids.
Qed.

Lemma toggle_favorite_twice_witness :
  handleFavoriteClick "1700000000900"
    (handleFavoriteClick "1700000000900" Walkthrough.final)
  = Walkthrough.final.
Proof.
  apply (toggle_favorite_twice "1700000000900" Walkthrough.final).
  exact walkthrough_reachable.
Defined.

Lemma filter_length_perm {A} (p : A -> bool) (l l' : list A) :
  l ≡ₚ l' -> length (List.filter p l) = length (List.filter p l').
Proof.
  induction 1 as [|x l l' _ IH|x y l|l l' l'' _ IH1 _ IH2]; cbn.
  - reflexivity.
  - destruct (p x); cbn; congruence.
  - destruct (p x), (p y); reflexivity.
  - congruence.
Qed.

Lemma filter_by_id (g : ImageFile) (l : list ImageFile) :
  NoDup (map id l) -> g ∈ l ->
  List.filter (isActive (Some g)) l = [g].
Proof.
  unfold isActive. induction l as [|a l IH]; intros Hnd Hg; [inversion Hg|].
  cbn in Hnd. apply NoDup_cons in Hnd as [Ha Hnd]. cbn.
  assert (forall x, x ∈ l -> String.eqb (id g) (id x) = true -> id a <> id g) as Hne.
  { intros x Hx E Hag. apply Ha. apply String.eqb_eq in E.
    rewrite Hag, E. apply list_elem_of_fmap_2, Hx. }
  apply elem_of_cons in Hg as [->|Hg].
  - rewrite String.eqb_refl. f_equal.
    clear IH Hnd. induction l as [|b l IHl]; [reflexivity|]. cbn.
    destruct (String.eqb_spec (id a) (id b)) as [E|E].
    + exfalso. apply Ha. rewrite E. left.
    + apply IHl.
      * intros Hin. apply Ha. right. exact Hin.
      * intros x Hx. apply Hne. right. exact Hx.
  - destruct (String.eqb_spec (id g) (id a)) as [E|E].
    + exfalso. apply Ha. rewrite <- E. apply list_elem_of_fmap_2, Hg.
    + apply IH; assumption.
Qed.

(** X14. The highlight ring: in every state of a session (nothing assumed
    about the clock's progress) the thumbnail of the displayed result is
    highlighted; the highlighted thumbnails are exactly the history entries
    with the id of the displayed result, as many as the history has of
    them; none is highlighted when nothing is displayed.  Exactly one is
    highlighted when the ids of the history are pairwise different, which
    the code does not ensure. *)
Theorem displayed_thumbnail_highlighted (s : AppState) :
  attainable s ->
  match generatedImage s with
  | Some g =>
      g ∈ highlighted s /\
      (forall t, t ∈ highlighted s <-> t ∈ history s /\ id t = id g) /\
      length (highlighted s) = length (List.filter (isActive (Some g)) (history s)) /\
      (NoDup (map id (history s)) -> highlighted s = [g])
  | None => highlighted s = []
  end.
Proof.
  intros Hs. unfold highlighted.
  destruct (generatedImage s) as [g|] eqn:Eg.
  - pose proof (attainable_result_in_history s Hs g Eg) as Hg.
    assert (forall t, t ∈ List.filter (isActive (Some g)) (sortedHistory (history s))
                      <-> t ∈ history s /\ id t = id g) as Hmem.
    { intros t. rewrite list_elem_of_In, filter_In, <- list_elem_of_In.
      unfold sortedHistory. rewrite (Array_sort_perm compareHistory (history s)).
      unfold isActive. rewrite String.eqb_eq. split; intros [H1 H2]; auto. }
    split; [apply Hmem; auto|]. split; [exact Hmem|]. split.
    + apply filter_length_perm. unfold sortedHistory. apply Array_sort_perm.
    + intros Hnd. apply filter_by_id.
      * unfold sortedHistory.
        change (map id (Js.Array_sort compareHistory (history s)))
          with (id <$> Js.Array_sort compareHistory (history s)).
        rewrite (Array_sort_perm compareHistory (history s)). exact Hnd.
      * unfold sortedHistory. rewrite (Array_sort_perm compareHistory (history s)).
        exact Hg.
  - unfold isActive. induction (sortedHistory (history s)); [reflexivity|exact IHl].
Qed.

Lemma displayed_thumbnail_highlighted_witness :
  map id (highlighted Walkthrough.final) = ["1700000000500"].
Proof.
  pose proof (displayed_thumbnail_highlighted Walkthrough.final
                (reachable_attainable _ walkthrough_reachable)) as H.
  change (generatedImage Walkthrough.final)
    with (Some (flipFavorite (newImageOf Samples.answer 1700000000500))) in H.
  destruct H as (_ & _ & _ & H).
  rewrite H; [reflexivity|].
  change (NoDup ["1700000000900"; "1700000000500"]).
  apply NoDup_cons. split; [|apply NoDup_singleton].
  intros Hin. apply list_elem_of_singleton in Hin. discriminate Hin.
Defined.

(** The same-millisecond run highlights two thumbnails. *)
Example clash_highlights_two : length (highlighted clash) = 2%nat.
Proof. reflexivity. Qed.

Lemma model_aspect_override_witness :
  modelImage (modelAspectRatioChange square 1700000001000 Walkthrough.final)
  = Some {| id := "1700000000001"; data := "/9j/4AAQ"; mimeType := "image/jpeg";
            aspectRatio := square; isFavorite := None |}.
Proof.
  destruct (model_aspect_override square portrait 1700000001000 1700000001001
              Walkthrough.final walkthrough_reachable) as [_ H].
  destruct (H {| id := "1700000000001"; data := "/9j/4AAQ"; mimeType := "image/jpeg";
                 aspectRatio := landscape; isFavorite := None |} eq_refl) as [H1 _].
  rewrite H1. reflexivity.
Defined.

End InvariantFacts.

Section DisplayOrderMore.
Import Service App HistoryView.

Lemma Array_sort_fixpoint {A} (comparefn : A -> A -> option Z) (l : list A) :
  StronglySorted (fun a b => Js.sortCompare comparefn a b <= 0) l ->
  Js.Array_sort comparefn l = l.
Proof.
  induction 1 as [|a l Hl IH Ha]; cbn; [reflexivity|].
  rewrite IH. destruct Ha as [|b l Hab _]; cbn; [reflexivity|].
  destruct (Z.ltb_spec 0 (Js.sortCompare comparefn a b)); [lia|reflexivity].
Qed.

Lemma displaysBefore_compare a b :
  displaysBefore a b -> Js.sortCompare compareHistory a b <= 0.
Proof.
  unfold displaysBefore, Js.sortCompare, compareHistory.
  intros [[-> ->]|[E (x & y & -> & -> & Hxy)]]; cbn; [lia|].
  rewrite E. destruct (truthy (isFavorite b)); cbn; lia.
Qed.

Lemma StronglySorted_impl {A} (R R' : A -> A -> Prop) (l : list A) :
  (forall a b, R a b -> R' a b) -> StronglySorted R l -> StronglySorted R' l.
Proof.
  intros HR. induction 1 as [|a l Hl IH Ha]; constructor; [exact IH|].
  eapply Forall_impl; [exact Ha|]. intros b. apply HR.
Qed.

(** X15. The display order is a fixed point of the sort: sorting a history
    that is already in display order changes nothing, so the order shown
    does not depend on how often it is recomputed. *)
Theorem sortedHistory_idempotent (h : list ImageFile) :
  forallb numericId h = true ->
  sortedHistory (sortedHistory h) = sortedHistory h.
Proof.
  intros Hn. destruct (sortedHistory_spec h Hn) as (_ & Hs & _).
  unfold sortedHistory at 1. apply Array_sort_fixpoint.
  exact (StronglySorted_impl _ _ _ displaysBefore_compare Hs).
Qed.

Lemma sortedHistory_idempotent_witness :
  sortedHistory (sortedHistory (history Walkthrough.final))
  = sortedHistory (history Walkthrough.final).
Proof.
  apply (sortedHistory_idempotent (history Walkthrough.final)). reflexivity.
Defined.

Lemma insertSorted_notFav a F N :
  notFav a = true -> Forall (fun f => isFav f = true) F ->
  Js.insertSorted compareHistory a (F ++ N) = F ++ Js.insertSorted compareHistory a N.
Proof.
  unfold notFav, isFav. intros Ha. induction 1 as [|f F Hf HF IH]; [reflexivity|].
  cbn. rewrite IH. unfold Js.sortCompare, compareHistory.
  apply negb_true_iff in Ha. rewrite Ha, Hf. reflexivity.
Qed.

Lemma insertSorted_isFav a F N :
  isFav a = true -> Forall (fun n => notFav n = true) N ->
  Js.insertSorted compareHistory a (F ++ N) = Js.insertSorted compareHistory a F ++ N.
Proof.
  unfold notFav, isFav. intros Ha HN. induction F as [|f F IH]; cbn.
  - destruct HN as [|n N Hn _]; [reflexivity|]. cbn.
    unfold Js.sortCompare, compareHistory. rewrite Ha, Hn. reflexivity.
  - rewrite IH. destruct (0 <? Js.sortCompare compareHistory a f); reflexivity.
Qed.

Lemma Array_sort_Forall {A} (comparefn : A -> A -> option Z) (P : A -> Prop) l :
  Forall P l -> Forall P (Js.Array_sort comparefn l).
Proof. intros H. rewrite Array_sort_perm. exact H. Qed.

Lemma filter_Forall {A} (p : A -> bool) (l : list A) :
  Forall (fun x => p x = true) (List.filter p l).
Proof.
  apply Forall_forall. intros x Hx. apply list_elem_of_In in Hx.
  apply filter_In in Hx. tauto.
Qed.

(** X16. The display is made of two blocks: the favorites in display order,
    followed by the other entries in display order.  (Stated for histories
    with numeric ids, on which the comparator is consistent and the result
    of [sort] is determined.) *)
Theorem sortedHistory_two_blocks (h : list ImageFile) :
  forallb numericId h = true ->
  sortedHistory h
  = sortedHistory (List.filter isFav h) ++ sortedHistory (List.filter notFav h).
Proof.
  intros _. unfold sortedHistory. induction h as [|a h IH]; [reflexivity|].
  cbn [Js.Array_sort List.filter]. rewrite IH.
  destruct (truthy (isFavorite a)) eqn:Ea.
  - assert (isFav a = true) as E1 by exact Ea.
    assert (notFav a = false) as E2 by (unfold notFav; rewrite Ea; reflexivity).
    rewrite E1, E2. cbn [Js.Array_sort].
    apply insertSorted_isFav; [exact E1|].
    apply Array_sort_Forall, filter_Forall.
  - assert (isFav a = false) as E1 by exact Ea.
    assert (notFav a = true) as E2 by (unfold notFav; rewrite Ea; reflexivity).
    rewrite E1, E2. cbn [Js.Array_sort].
    apply insertSorted_notFav; [exact E2|].
    apply Array_sort_Forall, filter_Forall.
Qed.

Lemma sortedHistory_two_blocks_witness :
  map id (sortedHistory (history Walkthrough.final))
  = ["1700000000500"%string] ++ ["1700000000900"%string].
Proof.
  rewrite (sortedHistory_two_blocks (history Walkthrough.final)); reflexivity.
Defined.

End DisplayOrderMore.

Section StorageMore.
Import Json Storage.
Local Open Scope string_scope.
Variable accepts : gmap string string -> bool.

(** X17. The effect of one cell never touches the entry of another cell:
    every other key reads as before. *)
Theorem effect_other_keys (key key' : string) (v : JsValue) (st : gmap string string) :
  key <> key' ->
  useLocalStorageState_effect accepts key v st !! key' = st !! key' /\
  forall defaultValue,
    useLocalStorageState_init key' defaultValue (useLocalStorageState_effect accepts key v st)
    = useLocalStorageState_init key' defaultValue st.
Proof.
  intros Hne.
  assert (useLocalStorageState_effect accepts key v st !! key' = st !! key') as H.
  { unfold useLocalStorageState_effect, setItem, removeItem.
    destruct (isEmptyState v); [apply lookup_delete_ne, Hne|].
    cbv zeta. destruct (accepts _); [apply lookup_insert_ne, Hne|reflexivity]. }
  split; [exact H|]. intros d.
  unfold useLocalStorageState_init, getItem. rewrite H. reflexivity.
Qed.

(** X18. A write that the storage area refuses is swallowed: the store is
    left exactly as it was, so a reload gives the value persisted before,
    not the current one. *)
Theorem effect_refused (key : string) (v : JsValue) (st : gmap string string) :
  v <> JNull -> v <> JArr [] ->
  accepts (<[key := JSON_stringify v]> st) = false ->
  useLocalStorageState_effect accepts key v st = st.
Proof.
  intros Hn Ha Hacc. unfold useLocalStorageState_effect, setItem.
  assert (isEmptyState v = false) as ->.
  { destruct (isEmptyState v) eqn:E; [|reflexivity].
    apply isEmptyState_iff in E as [E|E]; contradiction. }
  cbv zeta. rewrite Hacc. reflexivity.
Qed.

(** X19. What is stored under a key is decided by the last state written
    alone: provided the last write is not refused, writing [v1] and then
    [v2] leaves the store as writing [v2] directly does. *)
Theorem effect_last_write (key : string) (v1 v2 : JsValue) (st : gmap string string) :
  (v2 = JNull \/ v2 = JArr [] \/ accepts (<[key := JSON_stringify v2]> st) = true) ->
  useLocalStorageState_effect accepts key v2 (useLocalStorageState_effect accepts key v1 st)
  = useLocalStorageState_effect accepts key v2 st.
Proof.
  intros H2. unfold useLocalStorageState_effect, setItem, removeItem. cbv zeta.
  destruct (isEmptyState v2) eqn:E2.
  - destruct (isEmptyState v1).
    + apply delete_delete_eq.
    + destruct (accepts (<[key := JSON_stringify v1]> st));
        [apply delete_insert_eq|reflexivity].
  - assert (accepts (<[key := JSON_stringify v2]> st) = true) as Hacc.
    { destruct H2 as [->|[->|H2]]; [discriminate E2|discriminate E2|exact H2]. }
    destruct (isEmptyState v1).
    + rewrite insert_delete_eq, Hacc. reflexivity.
    + destruct (accepts (<[key := JSON_stringify v1]> st)).
      * rewrite insert_insert_eq, Hacc. reflexivity.
      * reflexivity.
Qed.

End StorageMore.

Section StorageMoreSamples.
Import Json Storage.
Local Open Scope string_scope.

Lemma effect_other_keys_witness :
  let st : gmap string string := {[ "vto-customPrompt" := "on a beach" ]} in
  useLocalStorageState_effect (fun _ => true) "vto-history" (JArr [JNum 1]) st
    !! "vto-customPrompt" = Some "on a beach".
Proof.
  intros st.
  rewrite (proj1 (effect_other_keys (fun _ => true) "vto-history" "vto-customPrompt"
                    (JArr [JNum 1]) st ltac:(discriminate))).
  reflexivity.
Defined.

(** A storage area that holds at most one entry. *)
Lemma effect_refused_witness :
  let full (st : gmap string string) := (size st <=? 1)%nat in
  let st : gmap string string := {[ "vto-customPrompt" := "on a beach" ]} in
  useLocalStorageState_effect full "vto-history" (JArr [JNum 1]) st = st.
Proof.
  intros full st.
  apply (effect_refused full "vto-history" (JArr [JNum 1]) st);
    [discriminate|discriminate|].
  vm_compute. reflexivity.
Defined.

Lemma effect_last_write_witness :
  let st : gmap string string := ∅ in
  useLocalStorageState_effect (fun _ => true) "vto-history" (JArr [])
    (useLocalStorageState_effect (fun _ => true) "vto-history" (JArr [JNum 1]) st) = ∅.
Proof.
  intros st.
  rewrite (effect_last_write (fun _ => true) "vto-history" (JArr [JNum 1]) (JArr []) st).
  - apply delete_empty.
  - right. left. reflexivity.
Defined.

End StorageMoreSamples.

Section ServiceMore.
Import Service.
Variable generateContent : Request -> GenerateContentResponse + Thrown.

(** X20. How the service fails.  It rejects in exactly three ways, always
    with an [Error]: when the remote call throws an [Error], with that
    message behind the prefix [Failed to generate image: ]; when the remote
    call throws something else, with a fixed message; and when the answer
    holds no image part, with the prefixed notice that the API returned no
    image (the notice is thrown inside the [try] and wrapped like any other
    error). *)
Theorem service_rejections (m g : ImageFile) (prompt : string) (e : Thrown) :
  generateVirtualTryOnImage generateContent m g prompt = inr e <->
  (exists msg, generateContent (buildRequest m g prompt) = inr (ErrorObj msg) /\
               e = ErrorObj ("Failed to generate image: " ++ msg)%string) \/
  (generateContent (buildRequest m g prompt) = inr NonError /\
   e = ErrorObj "An unknown error occurred during image generation."%string) \/
  (exists response, generateContent (buildRequest m g prompt) = inl response /\
     firstImage (responseParts response) = None /\
     e = ErrorObj "Failed to generate image: API did not return an image. It may have been blocked due to safety settings or an internal error."%string).
Proof.
  unfold generateVirtualTryOnImage, attempt.
  destruct (generateContent (buildRequest m g prompt)) as [response|[msg|]].
  - destruct (firstImage (responseParts response)) as [r|] eqn:E; split.
    + discriminate.
    + intros [(msg & H & _)|[(H & _)|(resp & H & Hf & _)]]; try discriminate H.
      injection H as <-. congruence.
    + intros [= <-]. right. right. exists response.
      split; [reflexivity|split; [exact E|reflexivity]].
    + intros [(msg & H & _)|[(H & _)|(resp & H & Hf & ->)]]; try discriminate H.
      reflexivity.
  - split.
    + intros [= <-]. left. exists msg. split; reflexivity.
    + intros [(msg' & H & ->)|[(H & _)|(resp & H & _)]]; try discriminate H.
      injection H as <-. reflexivity.
  - split.
    + intros [= <-]. right. left. split; reflexivity.
    + intros [(msg' & H & _)|[(_ & ->)|(resp & H & _)]]; try discriminate H.
      reflexivity.
Qed.

Lemma firstImage_spec (ps : list Part) (r : ResultData) :
  firstImage ps = Some r <->
  exists before p d after,
    ps = before ++ p :: after /\
    Forall (fun q => inlineData q = None) before /\
    inlineData p = Some d /\
    r = {| result_data := inline_data d; result_mimeType := inline_mimeType d;
           result_aspectRatio := portrait |}.
Proof.
  induction ps as [|q ps IH]; cbn.
  - split; [discriminate|].
    intros ([|x xs] & p & d & after & H & _); discriminate H.
  - destruct (inlineData q) as [d|] eqn:Eq.
    + split.
      * intros [= <-]. exists [], q, d, ps. repeat split; [constructor|exact Eq].
      * intros ([|q' before] & p & d' & after & H & Hb & Hp & ->).
        -- injection H as <- <-. rewrite Eq in Hp. injection Hp as <-. reflexivity.
        -- injection H as <- _. apply Forall_cons in Hb as [Hq _]. congruence.
    + rewrite IH. split.
      * intros (before & p & d & after & -> & Hb & Hp & ->).
        exists (q :: before), p, d, after. repeat split; [constructor; assumption|exact Hp].
      * intros ([|q' before] & p & d & after & H & Hb & Hp & ->).
        -- injection H as <- _. congruence.
        -- injection H as <- ->. apply Forall_cons in Hb as [_ Hb].
           exists before, p, d, after. repeat split; assumption.
Qed.

(** X21. When the service succeeds.  It resolves exactly when the remote
    call answers and the first candidate has a part with inline data; the
    result is taken from the first such part, the parts before it (text) are
    skipped, whatever follows it and every further candidate is ignored, and
    the aspect class is portrait. *)
Theorem service_resolution (m g : ImageFile) (prompt : string) (r : ResultData) :
  (generateVirtualTryOnImage generateContent m g prompt = inl r <->
   exists response before p d after,
     generateContent (buildRequest m g prompt) = inl response /\
     responseParts response = before ++ p :: after /\
     Forall (fun q => inlineData q = None) before /\
     inlineData p = Some d /\
     r = {| result_data := inline_data d; result_mimeType := inline_mimeType d;
            result_aspectRatio := portrait |}) /\
  (forall c cs cs',
     responseParts {| candidates := Some (c :: cs) |}
     = responseParts {| candidates := Some (c :: cs') |}) /\
  responseParts {| candidates := None |} = [] /\
  responseParts {| candidates := Some [] |} = [].
Proof.
  split; [|repeat split].
  unfold generateVirtualTryOnImage, attempt.
  destruct (generateContent (buildRequest m g prompt)) as [response|[msg|]].
  - destruct (firstImage (responseParts response)) as [r'|] eqn:E.
    + split.
      * intros [= <-]. apply firstImage_spec in E as (b & p & d & a & H).
        exists response, b, p, d, a. split; [reflexivity|exact H].
      * intros (resp & b & p & d & a & [= <-] & H).
        assert (firstImage (responseParts response) = Some r) as E'
          by (apply firstImage_spec; exists b, p, d, a; exact H).
        congruence.
    + split; [discriminate|].
      intros (resp & b & p & d & a & [= <-] & H).
      assert (firstImage (responseParts response) = Some r) as E'
        by (apply firstImage_spec; exists b, p, d, a; exact H).
      congruence.
  - split; [discriminate|]. intros (resp & b & p & d & a & H & _). discriminate H.
  - split; [discriminate|]. intros (resp & b & p & d & a & H & _). discriminate H.
Qed.

End ServiceMore.

Section PromptFacts.
Import Service JsString.
Local Open Scope string_scope.

Lemma trimStart_headNotWhite s : headNotWhite (Js.trimStart s).
Proof.
  induction s as [|c s IH]; cbn; [exact I|].
  destruct (Js.isWhiteSpace c) eqn:E; [exact IH|exact E].
Qed.

Lemma trimStart_fixed s : headNotWhite s -> Js.trimStart s = s.
Proof.
  destruct s as [|c s]; [reflexivity|]. cbn. intros ->. reflexivity.
Qed.

Lemma trimEnd_headNotWhite s : headNotWhite s -> headNotWhite (Js.trimEnd s).
Proof.
  destruct s as [|c s]; [intros _; exact I|]. cbn [headNotWhite Js.trimEnd]. intros H.
  destruct (Js.trimEnd s); [rewrite H|]; exact H.
Qed.

Lemma trimEnd_idempotent s : Js.trimEnd (Js.trimEnd s) = Js.trimEnd s.
Proof.
  induction s as [|c s IH]; [reflexivity|]. cbn [Js.trimEnd].
  destruct (Js.trimEnd s) as [|d t] eqn:E.
  - destruct (Js.isWhiteSpace c) eqn:Ec; [reflexivity|].
    cbn [Js.trimEnd]. rewrite Ec. reflexivity.
  - cbn [Js.trimEnd]. cbn [Js.trimEnd] in IH. rewrite IH. reflexivity.
Qed.

Lemma trim_idempotent s : Js.trim (Js.trim s) = Js.trim s.
Proof.
  unfold Js.trim.
  rewrite (trimStart_fixed (Js.trimEnd (Js.trimStart s))).
  - apply trimEnd_idempotent.
  - apply trimEnd_headNotWhite, trimStart_headNotWhite.
Qed.

(** X22. White space around the custom instructions does not reach the
    service: the request built from a prompt is the request built from the
    trimmed prompt, and a prompt of white space only gives the request of an
    empty prompt. *)
Theorem request_ignores_outer_space (m g : ImageFile) (customPrompt : string) :
  buildRequest m g customPrompt = buildRequest m g (Js.trim customPrompt) /\
  (Js.trim customPrompt = "" -> buildRequest m g customPrompt = buildRequest m g "").
Proof.
  assert (forall p, buildPrompt m g p
                    = if String.eqb (Js.trim p) "" then basePrompt m g
                      else basePrompt m g ++ nl ++ nl
                           ++ "Additional user instructions: " ++ Js.trim p) as H.
  { intros p. unfold buildPrompt.
    destruct (String.eqb_spec p "") as [->|_]; [reflexivity|].
    destruct (String.eqb (Js.trim p) ""); reflexivity. }
  unfold buildRequest. split.
  - rewrite (H customPrompt), (H (Js.trim customPrompt)), trim_idempotent. reflexivity.
  - intros E. rewrite (H customPrompt), (H ""), E. reflexivity.
Qed.

Lemma request_ignores_outer_space_witness :
  buildRequest Samples.person Samples.shirt "   "
  = buildRequest Samples.person Samples.shirt "".
Proof.
  apply (request_ignores_outer_space Samples.person Samples.shirt "   "). reflexivity.
Defined.

End PromptFacts.

Section ServiceSamples.
Import Service.
Local Open Scope string_scope.

Lemma service_rejections_witness :
  exists msg,
    Samples.refusing (buildRequest Samples.person Samples.shirt "") = inr (ErrorObj msg) /\
    ErrorObj "Failed to generate image: quota exceeded"
    = ErrorObj ("Failed to generate image: " ++ msg).
Proof.
  destruct (proj1 (service_rejections Samples.refusing Samples.person Samples.shirt ""
                     (ErrorObj "Failed to generate image: quota exceeded")) eq_refl)
    as [H|[[H _]|(resp & H & _)]]; [exact H|discriminate H|discriminate H].
Defined.

Lemma service_resolution_witness :
  generateVirtualTryOnImage Samples.answering Samples.person Samples.shirt ""
  = inl Samples.answer.
Proof.
  apply (proj1 (service_resolution Samples.answering Samples.person Samples.shirt ""
                  Samples.answer)).
  eexists _, [ {| inlineData := None; text := Some "Here you go" |} ], _, _, [].
  split; [reflexivity|]. split; [reflexivity|].
  split; [repeat constructor|]. split; reflexivity.
Defined.

End ServiceSamples.

Section ViewerMore.
Import Viewer ResultView.
Local Open Scope Q_scope.

Lemma State_ext (s s' : State) :
  isModalOpen s = isModalOpen s' -> zoom s = zoom s' -> position s = position s' ->
  isDragging s = isDragging s' -> dragStart s = dragStart s' -> s = s'.
Proof. destruct s, s'; cbn; intros; subst; reflexivity. Qed.

Lemma mouse_step_inert s e :
  Qle_bool (zoom s) 1 = true -> isDragging s = false -> isMouseEvent e = true ->
  step s e = s.
Proof.
  intros Hz Hd He. destruct e; try discriminate He; cbn.
  - unfold handleMouseDown. rewrite Hz. reflexivity.
  - unfold handleMouseMove. rewrite Hd. reflexivity.
  - apply State_ext; cbn; congruence.
Qed.

(** X23. While the view is not zoomed in, the mouse cannot move the image:
    from a state with zoom at most 1 and no drag under way, any sequence of
    mouse-down, mouse-move and mouse-up events leaves the state as it is. *)
Theorem unzoomed_mouse_inert (s : State) (es : list Event) :
  Qle_bool (zoom s) 1 = true -> isDragging s = false ->
  forallb isMouseEvent es = true ->
  run s es = s.
Proof.
  intros Hz Hd. induction es as [|e es IH]; cbn; [reflexivity|].
  intros H. apply andb_prop in H as [He Hes].
  rewrite (mouse_step_inert s e Hz Hd He). exact (IH Hes).
Qed.

Lemma unzoomed_mouse_inert_witness :
  run initial [MouseDown 10 10; MouseMove 200 50; MouseUpOrLeave; MouseMove 3 4] = initial.
Proof.
  apply (unzoomed_mouse_inert initial); reflexivity.
Defined.

(** X24. Dragging a zoomed image: pressing the button starts a drag without
    moving anything; a move puts the pan at its value at the press plus the
    pointer's displacement since the press (in exact arithmetic), so only
    the last pointer position counts; releasing keeps the pan, and moves
    after the release do nothing. *)
Theorem drag_follows_pointer (s : State) (x0 y0 x1 y1 x2 y2 : Q) :
  Qle_bool (zoom s) 1 = false ->
  let pressed := handleMouseDown x0 y0 s in
  let moved := handleMouseMove x1 y1 pressed in
  (isDragging pressed = true /\ position pressed = position s /\ zoom pressed = zoom s) /\
  (x (position moved) == x (position s) + (x1 - x0) /\
   y (position moved) == y (position s) + (y1 - y0)) /\
  handleMouseMove x2 y2 moved = handleMouseMove x2 y2 pressed /\
  position (handleMouseUpOrLeave moved) = position moved /\
  handleMouseMove x2 y2 (handleMouseUpOrLeave moved) = handleMouseUpOrLeave moved.
Proof.
  intros Hz. cbv zeta. unfold handleMouseDown. rewrite Hz.
  unfold handleMouseMove. cbn.
  repeat split; ring.
Qed.

Lemma drag_follows_pointer_witness :
  let s := handleZoomIn initial in
  position (handleMouseMove 130 80 (handleMouseMove 500 500 (handleMouseDown 100 100 s)))
  = position (handleMouseMove 130 80 (handleMouseDown 100 100 s)).
Proof.
  intros s.
  destruct (drag_follows_pointer s 100 100 500 500 130 80 eq_refl) as (_ & _ & H & _).
  rewrite H. reflexivity.
Defined.

(** X25. Closing.  The reset that [closeModal] defers by 200 ms resets the
    view whatever has happened in between: after it the zoom is 1, the pan
    is at the origin and no drag is under way, and it neither opens nor
    closes the viewer, so a viewer reopened (and zoomed) within the delay
    is reset while open.  Escape closes an open viewer and is not seen by a
    closed one; opening needs an image. *)
Theorem close_resets_view (s : State) (es : list Event) (key : string) :
  (let s' := closeModal_timeout (run (closeModal s) es) in
   zoom s' = 1 /\ position s' = origin /\ isDragging s' = false /\
   isModalOpen s' = isModalOpen (run (closeModal s) es)) /\
  isModalOpen (closeModal s) = false /\
  (isModalOpen s = true -> windowKeyDown "Escape" s = closeModal s) /\
  (isModalOpen s = false -> windowKeyDown key s = s) /\
  (key <> "Escape"%string -> windowKeyDown key s = s) /\
  openModal None s = s.
Proof.
  split; [cbv zeta; repeat split|]. split; [reflexivity|].
  unfold windowKeyDown. split; [|split; [|split]].
  - intros ->. reflexivity.
  - intros ->. reflexivity.
  - intros Hk. destruct (isModalOpen s); [|reflexivity].
    destruct (String.eqb_spec key "Escape"); [contradiction|reflexivity].
  - reflexivity.
Qed.

Lemma close_resets_view_witness :
  let reopened :=
    run initial [OpenModal (Some Samples.earlier); ZoomIn; CloseModal;
                 OpenModal (Some Samples.earlier); ZoomIn; ZoomIn] in
  windowKeyDown "Escape" reopened = closeModal reopened /\
  windowKeyDown "Enter" reopened = reopened.
Proof.
  intros reopened.
  destruct (close_resets_view reopened [] "Enter") as (_ & _ & H1 & _ & H2 & _).
  split; [apply H1; reflexivity|apply H2; discriminate].
Defined.

(** X26. The loading message: after [n] ticks from the first message the
    index is [n mod 7], so it always names one of the seven messages and
    the messages repeat in a cycle. *)
Theorem loading_message_cycles (n : nat) :
  Nat.iter n nextMessageIndex 0%nat = (n mod 7)%nat /\
  is_Some (loadingMessages !! Nat.iter n nextMessageIndex 0%nat).
Proof.
  assert (Nat.iter n nextMessageIndex 0%nat = (n mod 7)%nat) as H.
  { induction n as [|n IH]; [reflexivity|].
    rewrite Nat.iter_succ, IH. unfold nextMessageIndex.
    change (length loadingMessages) with 7%nat.
    rewrite Nat.Div0.add_mod_idemp_l. f_equal. lia. }
  split; [exact H|]. rewrite H. apply lookup_lt_is_Some.
  change (length loadingMessages) with 7%nat.
  apply Nat.mod_upper_bound. discriminate.
Qed.

End ViewerMore.

Section DownloadFacts.
Import ResultView JsString.
Local Open Scope string_scope.

Lemma split_whole (sep : ascii) (t : string) :
  contains sep t = false -> split sep t = [t].
Proof.
  induction t as [|c t IH]; cbn; [reflexivity|].
  intros H. apply orb_false_elim in H as [Hc Ht].
  rewrite Hc, (IH Ht). reflexivity.
Qed.

Lemma split_first (sep : ascii) (t r : string) :
  contains sep t = false -> split sep (t ++ String sep r) = t :: split sep r.
Proof.
  induction t as [|c t IH]; intros H.
  - change ("" ++ String sep r) with (String sep r). cbn.
    rewrite Ascii.eqb_refl. reflexivity.
  - cbn in H. apply orb_false_elim in H as [Hc Ht].
    change (String c t ++ String sep r) with (String c (t ++ String sep r)).
    cbn [split]. rewrite Hc, (IH Ht). reflexivity.
Qed.

(** X27. The download.  Without a result nothing is downloaded.  The file
    name ends in the media type's subtype, the text between the first slash
    and the next one; when the media type has no slash, or nothing after
    it, the extension is [png]. *)
Theorem download_extension (now : Z) :
  handleDownload None now = None /\
  (forall g, exists href,
     handleDownload (Some g) now
     = Some (href, "virtual-try-on-" ++ Js.Number_toString now ++ "."
                   ++ fileExtension (mimeType g))) /\
  (forall t, contains "/" t = false -> fileExtension t = "png") /\
  (forall t sub, contains "/" t = false -> contains "/" sub = false ->
     fileExtension (t ++ "/" ++ sub) = if String.eqb sub "" then "png" else sub) /\
  (forall t sub rest, contains "/" t = false -> contains "/" sub = false ->
     fileExtension (t ++ "/" ++ sub ++ "/" ++ rest)
     = if String.eqb sub "" then "png" else sub).
Proof.
  split; [reflexivity|]. split; [intros g; eexists; reflexivity|].
  unfold fileExtension. split; [|split].
  - intros t Ht. rewrite (split_whole _ _ Ht). reflexivity.
  - intros t sub Ht Hs.
    change (t ++ "/" ++ sub) with (t ++ String "/" sub).
    rewrite (split_first _ _ _ Ht), (split_whole _ _ Hs). reflexivity.
  - intros t sub rest Ht Hs.
    change (t ++ "/" ++ sub ++ "/" ++ rest) with (t ++ String "/" (sub ++ String "/" rest)).
    rewrite (split_first _ _ _ Ht), (split_first _ _ _ Hs). reflexivity.
Qed.

Lemma download_extension_witness :
  fileExtension "image/jpeg" = "jpeg" /\ fileExtension "image/" = "png" /\
  fileExtension "binary" = "png".
Proof.
  destruct (download_extension 0) as (_ & _ & H1 & H2 & _).
  split; [exact (H2 "image" "jpeg" eq_refl eq_refl)|].
  split; [exact (H2 "image" "" eq_refl eq_refl)|exact (H1 "binary" eq_refl)].
Defined.

End DownloadFacts.
